(** * jnf_geometry: 2D geometry primitives (src/jnf_geometry.h)

    The template parameter [T] is instantiated at the rationals [Q]:
    arithmetic on [T] is exact, the locals declared [double] hold their
    value unchanged, and no value is NaN or infinite.  The locals that
    the header declares [float] whatever [T] is ([rd], [rn], [sn] in
    [intersects(line, line)], [u1], [u2] in [overlaps(line, line)]) go
    through a conversion to [float], which the functions that declare
    them take as the parameter [narrow].  Members that need [std::sqrt],
    trigonometry, rounding or pi ([mag], [norm], [floor], [ceil],
    [cartesian], [polar], [length], the circle's [area] and [perim],
    [closest(circle, vec2)], [envelope_c] of a line and of a rect) have
    no rational counterpart and are left out.  The one effect the code
    has is division by zero, which C++ leaves undefined; here it is an
    explicit outcome [DivByZero] of the computation, so that a missing
    guard is visible. *)

From Stdlib Require Import QArith Qabs Lqa ZArith Lia List Bool.
From Stdlib Require Floats.SpecFloat.
Import ListNotations.
Local Open Scope Q_scope.

(** ** Outcome of a computation that may divide *)

Inductive result (A : Type) : Type :=
| Ok (a : A)
| DivByZero.

Arguments Ok {A} a.
Arguments DivByZero {A}.

Definition bind {A B : Type} (m : result A) (k : A -> result B) : result B :=
  match m with
  | Ok a => k a
  | DivByZero => DivByZero
  end.

Notation "x <- m ;; k" := (bind m (fun x => k))
  (at level 61, m at next level, right associativity).

(** [a || b] on outcomes: [b] is evaluated only when [a] is false. *)
Definition orelse (a b : result bool) : result bool :=
  v <- a ;; if v then Ok true else b.

(** ** The scalar type *)

Module Num.

(** [a < b] *)
Definition ltb (a b : Q) : bool :=
  match a ?= b with Lt => true | _ => false end.

(** [a <= b] *)
Definition leb (a b : Q) : bool := Qle_bool a b.

(** [a >= b] *)
Definition geb (a b : Q) : bool := Qle_bool b a.

(** [a == b] *)
Definition eqb (a b : Q) : bool := Qeq_bool a b.

(** [constexpr double eps = 1e-3] *)
Definition eps : Q := 1 # 1000.

(** [sgn]: [(T(0) < x) - (x < T(0))] *)
Definition sgn (a : Q) : Z :=
  (Z.b2z (ltb 0 a) - Z.b2z (ltb a 0))%Z.

(** [std::clamp(v, lo, hi)]: [(v < lo) ? lo : (hi < v) ? hi : v] *)
Definition clamp (v lo hi : Q) : Q :=
  if ltb v lo then lo else if ltb hi v then hi else v.

(** [std::min(a, b)]: [(b < a) ? b : a] *)
Definition min (a b : Q) : Q := if ltb b a then b else a.

(** [std::max(a, b)]: [(a < b) ? b : a] *)
Definition max (a b : Q) : Q := if ltb a b then b else a.

(** [a / b]; a zero divisor is undefined behaviour in C++. *)
Definition div (a b : Q) : result Q :=
  if eqb b 0 then DivByZero else Ok (a / b).

End Num.

(** ** Conversion to [float]

    A value of [T] assigned to a local declared [float] is rounded to a
    binary32 number.  The functions with such locals take the conversion
    as an argument [narrow : Q -> Q].  What a theorem needs of it is a
    hypothesis: [float_conversion] collects two facts true of the
    rounding to nearest, that it is monotone and that it leaves the
    binary32 numbers unchanged. *)

(** The finite binary32 numbers: [m * 2 ^ e] with a mantissa of 24 bits. *)
Definition representable32 (q : Q) : Prop :=
  exists m e : Z,
    (Z.abs m < 2 ^ 24)%Z /\ (-149 <= e <= 104)%Z /\ q == inject_Z m * 2 ^ e.

Record float_conversion (narrow : Q -> Q) : Prop := {
  narrow_monotone : forall a b : Q, a <= b -> narrow a <= narrow b;
  narrow_exact : forall q : Q, representable32 q -> narrow q == q
}.

(** A test that decides, for a reduced fraction whose denominator is a
    power of two, that it is a binary32 number. *)
Definition dyadic32 (v : Q) : bool :=
  let e := (- Z.log2 (Zpos (Qden v)))%Z in
  (Z.abs (Qnum v) <? 2 ^ 24)%Z && (-149 <=? e)%Z && (e <=? 104)%Z
  && Qeq_bool v (inject_Z (Qnum v) * 2 ^ e).

(** When [T] is [float] itself the conversion does nothing. *)
Definition same_type (q : Q) : Q := q.

(** The rounding to nearest, ties to even, of a rational to binary32,
    computed by the division of the standard specification of IEEE 754
    ([prec = 24], [emax = 128]); an overflow gives the bound [2 ^ 128]
    in place of the infinity, which [Q] does not have. *)
Definition float_of_Z (z : Z) : SpecFloat.spec_float :=
  match z with
  | Z0 => SpecFloat.S754_zero false
  | Zpos m => SpecFloat.S754_finite false m 0
  | Zneg m => SpecFloat.S754_finite true m 0
  end.

Definition float_value (f : SpecFloat.spec_float) : Q :=
  match f with
  | SpecFloat.S754_finite s m e =>
      (if s then - (1) else 1) * inject_Z (Zpos m) * 2 ^ e
  | SpecFloat.S754_infinity s => (if s then - (1) else 1) * 2 ^ 128
  | _ => 0
  end.

Definition binary32 (q : Q) : Q :=
  let q' := Qred q in
  Qred (float_value
          (SpecFloat.SFdiv 24 128 (float_of_Z (Qnum q'))
                           (float_of_Z (Zpos (Qden q'))))).

(** ** [struct vec2] *)

Module Vec2.

Record t : Type := mk { x : Q; y : Q }.

Definition zero : t := mk 0 0.

Definition area (v : t) : Q := x v * y v.

Definition mag2 (v : t) : Q := x v * x v + y v * y v.

Definition perp (v : t) : t := mk (- y v) (x v).

Definition min (v w : t) : t := mk (Num.min (x v) (x w)) (Num.min (y v) (y w)).

Definition max (v w : t) : t := mk (Num.max (x v) (x w)) (Num.max (y v) (y w)).

Definition dot (v w : t) : Q := x v * x w + y v * y w.

Definition cross (v w : t) : Q := x v * y w - y v * x w.

Definition clamp (v v1 v2 : t) : t := min (max v v1) v2.

(** [operator==] *)
Definition eqb (v w : t) : bool := Num.eqb (x v) (x w) && Num.eqb (y v) (y w).

(** [operator!=] *)
Definition neqb (v w : t) : bool :=
  negb (Num.eqb (x v) (x w)) || negb (Num.eqb (y v) (y w)).

(** [operator-] *)
Definition sub (v w : t) : t := mk (x v - x w) (y v - y w).

(** Modelled from the spec: the header uses [vec2 + vec2] without
    declaring it; spec 4.1 gives the operators as component-wise. *)
Definition add (v w : t) : t := mk (x v + x w) (y v + y w).

(** Modelled from the spec: the header uses [scalar * vec2] and
    [vec2 * scalar] without declaring them; spec 4.1 gives the
    operators with scalars as component-wise. *)
Definition scale (k : Q) (v : t) : t := mk (k * x v) (k * y v).

(** [lerp]: [this * T(1.0 - t) + v1 * T(t)] *)
Definition lerp (v v1 : t) (k : Q) : t := add (scale (1 - k) v) (scale k v1).

(** Equality of the two coordinates as rationals; [eqb] decides it. *)
Definition eq (v w : t) : Prop := x v == x w /\ y v == y w.

End Vec2.

Abbreviation vec2 := Vec2.t.
Infix "=v=" := Vec2.eq (at level 70, no associativity).

(** ** [struct line] *)

Module Line.

Record t : Type := mk { start : vec2; end_ : vec2 }.

(** [line()]: both end points default to [(0, 0)]. *)
Definition default : t := mk Vec2.zero Vec2.zero.

Definition length2 (l : t) : Q := Vec2.mag2 (Vec2.sub (end_ l) (start l)).

Definition vec (l : t) : vec2 := Vec2.sub (end_ l) (start l).

Definition point (l : t) (dist : Q) : vec2 :=
  Vec2.add (start l) (Vec2.scale dist (Vec2.sub (end_ l) (start l))).

Definition side (l : t) (p : vec2) : Z :=
  Num.sgn (Vec2.cross (Vec2.sub (end_ l) (start l)) (Vec2.sub p (start l))).

End Line.

Abbreviation line := Line.t.

(** ** [struct rect] *)

Module Rect.

Record t : Type := mk { pos : vec2; size : vec2 }.

Definition center (r : t) : vec2 := Vec2.add (pos r) (Vec2.scale (1 # 2) (size r)).

Definition top (r : t) : line :=
  Line.mk (pos r) (Vec2.mk (Vec2.x (pos r) + Vec2.x (size r)) (Vec2.y (pos r))).

Definition bottom (r : t) : line :=
  Line.mk (Vec2.mk (Vec2.x (pos r)) (Vec2.y (pos r) + Vec2.y (size r)))
          (Vec2.add (pos r) (size r)).

Definition left (r : t) : line :=
  Line.mk (pos r) (Vec2.mk (Vec2.x (pos r)) (Vec2.y (pos r) + Vec2.y (size r))).

Definition right (r : t) : line :=
  Line.mk (Vec2.mk (Vec2.x (pos r) + Vec2.x (size r)) (Vec2.y (pos r)))
          (Vec2.add (pos r) (size r)).

(** [side(i)]: [switch (i % 4)].  The operator [%] of C++ truncates
    towards zero ([Z.rem]), so a negative [i] gives a remainder in
    [-3..0] and, unless it is [0], reaches [default: return {}].  The
    remainder of an [int32_t] by [4] cannot overflow, so the index is
    taken in [Z]. *)
Definition side (r : t) (i : Z) : line :=
  match Z.rem i 4 with
  | 0%Z => top r
  | 1%Z => right r
  | 2%Z => bottom r
  | 3%Z => left r
  | _ => Line.default
  end.

Definition area (r : t) : Q := Vec2.x (size r) * Vec2.y (size r).

(** [perim]: [T(1) * (size.x + size.y)] *)
Definition perim (r : t) : Q := 1 * (Vec2.x (size r) + Vec2.y (size r)).

End Rect.

Abbreviation rect := Rect.t.

(** ** [struct circle]

    The struct declares [center]; the free functions below read it as
    [c.pos].  There is one position field, so both name it. *)

Module Circle.

Record t : Type := mk { center : vec2; radius : Q }.

Definition pos (c : t) : vec2 := center c.

End Circle.

Abbreviation circle := Circle.t.

(** ** [namespace geometry]

    The overloads of [closest], [contains], [overlaps] and [intersects]
    are told apart by a suffix naming the two argument types:
    [v] for [vec2], [l] for [line], [r] for [rect], [c] for [circle]. *)

Module Geometry.

Import Vec2.

Definition closest_vv (p1 p2 : vec2) : vec2 := p1.

Definition closest_lv (l : line) (p : vec2) : result vec2 :=
  let d := Line.vec l in
  u <- Num.div (dot d (sub p (Line.start l))) (Line.length2 l) ;;
  Ok (add (Line.start l) (scale (Num.clamp u 0 1) d)).

Definition closest_rv (r : rect) (p : vec2) : vec2 :=
  mk (Num.clamp (x p) (x (Rect.pos r)) (x (Rect.pos r) + x (Rect.size r)))
     (Num.clamp (y p) (y (Rect.pos r)) (y (Rect.pos r) + y (Rect.size r))).

(** *** A shape against a point *)

Definition contains_vv (p1 p2 : vec2) : bool :=
  Num.ltb (mag2 (sub p1 p2)) Num.eps.

Definition contains_lv (l : line) (p : vec2) : result bool :=
  let d := (x p - x (Line.start l)) * (y (Line.end_ l) - y (Line.start l))
           - (y p - y (Line.start l)) * (x (Line.end_ l) - x (Line.start l)) in
  if Num.ltb (Qabs d) Num.eps then
    u <- Num.div (dot (Line.vec l) (sub p (Line.start l))) (Line.length2 l) ;;
    Ok (Num.geb u 0 && Num.leb u 1)
  else Ok false.

Definition contains_rv (r : rect) (p : vec2) : bool :=
  Num.geb (x p) (x (Rect.pos r))
  && Num.geb (y p) (y (Rect.pos r))
  && Num.leb (x p) (x (Rect.pos r) + x (Rect.size r))
  && Num.leb (y p) (y (Rect.pos r) + y (Rect.size r)).

Definition contains_cv (c : circle) (p : vec2) : bool :=
  Num.ltb (mag2 (sub (Circle.pos c) p)) (Circle.radius c * Circle.radius c).

Definition overlaps_vv (p1 p2 : vec2) : bool := contains_vv p1 p2.

Definition overlaps_lv (l : line) (p : vec2) : result bool := contains_lv l p.

Definition overlaps_rv (r : rect) (p : vec2) : bool := contains_rv r p.

Definition overlaps_cv (c : circle) (p : vec2) : bool := contains_cv c p.

Definition intersects_vv (p1 p2 : vec2) : list vec2 :=
  if contains_vv p1 p2 then [p1] else [].

Definition intersects_lv (l : line) (p : vec2) : result (list vec2) :=
  b <- contains_lv l p ;; Ok (if b then [p] else []).

Definition intersects_rv (r : rect) (p : vec2) : result (list vec2) :=
  b <- orelse (contains_lv (Rect.top r) p)
         (orelse (contains_lv (Rect.bottom r) p)
            (orelse (contains_lv (Rect.left r) p)
               (contains_lv (Rect.right r) p))) ;;
  Ok (if b then [p] else []).

Definition intersects_cv (c : circle) (p : vec2) : list vec2 :=
  if Num.ltb (Qabs (mag2 (sub p (Circle.pos c))
                    - Circle.radius c * Circle.radius c)) Num.eps
  then [p] else [].

(** *** A shape against a line *)

Definition contains_vl (p : vec2) (l : line) : bool := false.

Definition contains_ll (l1 l2 : line) : bool := false.

Definition contains_rl (r : rect) (l : line) : bool :=
  contains_rv r (Line.start l) && contains_rv r (Line.end_ l).

Definition contains_cl (c : circle) (l : line) : bool :=
  contains_cv c (Line.start l) && contains_cv c (Line.end_ l).

Definition overlaps_vl (p : vec2) (l : line) : result bool := contains_lv l p.

(** [const float u1 = ... / d]: the quotient is computed in [T], then
    converted. *)
Definition overlaps_ll (narrow : Q -> Q) (l1 l2 : line) : result bool :=
  let d := cross (Line.vec l2) (Line.vec l1) in
  q1 <- Num.div (cross (Line.vec l2) (sub (Line.start l1) (Line.start l2))) d ;;
  let u1 := narrow q1 in
  q2 <- Num.div (cross (Line.vec l1) (sub (Line.start l1) (Line.start l2))) d ;;
  let u2 := narrow q2 in
  Ok (Num.geb u1 0 && Num.leb u1 1 && Num.geb u2 0 && Num.leb u2 1).

Definition overlaps_rl (narrow : Q -> Q) (r : rect) (l : line) : result bool :=
  orelse (overlaps_ll narrow (Rect.top r) l)
    (orelse (overlaps_ll narrow (Rect.bottom r) l)
       (orelse (overlaps_ll narrow (Rect.left r) l)
          (overlaps_ll narrow (Rect.right r) l))).

Definition overlaps_cl (c : circle) (l : line) : result bool :=
  closest <- closest_lv l (Circle.pos c) ;;
  Ok (Num.ltb (mag2 (sub (Circle.pos c) closest))
              (Circle.radius c * Circle.radius c)).

Definition intersects_vl (p : vec2) (l : line) : list vec2 := [].

(** [float rd = ...], [rd = 1.f / rd], [const float rn = ... * rd],
    [const float sn = ... * rd]: each assignment converts what the right
    hand side computes. *)
Definition intersects_ll (narrow : Q -> Q) (l1 l2 : line)
  : result (list vec2) :=
  let rd := narrow (cross (Line.vec l1) (Line.vec l2)) in
  if Num.eqb rd 0 then Ok []
  else
    q <- Num.div 1 rd ;;
    let rd := narrow q in
    let rn := narrow
                (((x (Line.end_ l2) - x (Line.start l2))
                    * (y (Line.start l1) - y (Line.start l2))
                  - (y (Line.end_ l2) - y (Line.start l2))
                    * (x (Line.start l1) - x (Line.start l2))) * rd) in
    let sn := narrow
                (((x (Line.end_ l1) - x (Line.start l1))
                    * (y (Line.start l1) - y (Line.start l2))
                  - (y (Line.end_ l1) - y (Line.start l2))
                    * (x (Line.start l1) - x (Line.start l2))) * rd) in
    if Num.ltb rn 0 || Num.ltb 1 rn || Num.ltb sn 0 || Num.ltb 1 sn then Ok []
    else Ok [add (Line.start l1)
                 (scale rn (sub (Line.end_ l1) (Line.start l1)))].

(** The loop [for (i = 0; i < 4; ++i)] over the four sides. *)
Fixpoint intersects_rl_loop (narrow : Q -> Q) (r : rect) (l : line)
  (sides : list Z) : result (list vec2) :=
  match sides with
  | [] => Ok []
  | i :: rest =>
      pts <- intersects_ll narrow (Rect.side r i) l ;;
      ret <- intersects_rl_loop narrow r l rest ;;
      Ok (match pts with
          | [] => ret
          | p :: _ => p :: ret
          end)
  end.

Definition intersects_rl (narrow : Q -> Q) (r : rect) (l : line)
  : result (list vec2) :=
  intersects_rl_loop narrow r l [0; 1; 2; 3]%Z.

Definition intersects_cl (c : circle) (l : line) : list vec2 := [].

(** *** A shape against a rect *)

Definition contains_vr (p : vec2) (r : rect) : bool := false.

Definition contains_lr (l : line) (r : rect) : bool := false.

Definition contains_rr (r1 r2 : rect) : bool :=
  Num.geb (x (Rect.pos r2)) (x (Rect.pos r1))
  && Num.geb (y (Rect.pos r2)) (y (Rect.pos r1))
  && Num.ltb (x (Rect.pos r2) + x (Rect.size r2))
             (x (Rect.pos r1) + x (Rect.size r1))
  && Num.ltb (y (Rect.pos r2) + y (Rect.size r2))
             (y (Rect.pos r1) + y (Rect.size r1)).

Definition contains_cr (c : circle) (r : rect) : bool :=
  contains_cv c (Rect.pos r)
  && contains_cv c (mk (x (Rect.pos r) + x (Rect.size r)) (y (Rect.pos r)))
  && contains_cv c (mk (x (Rect.pos r)) (y (Rect.pos r) + y (Rect.size r)))
  && contains_cv c (add (Rect.pos r) (Rect.size r)).

Definition overlaps_vr (p : vec2) (r : rect) : bool := overlaps_rv r p.

Definition overlaps_lr (narrow : Q -> Q) (l : line) (r : rect) : result bool :=
  overlaps_rl narrow r l.

Definition overlaps_rr (r1 r2 : rect) : bool :=
  Num.ltb (x (Rect.pos r1)) (x (Rect.pos r2) + x (Rect.size r2))
  && Num.geb (x (Rect.pos r1) + x (Rect.size r1)) (x (Rect.pos r2))
  && Num.ltb (y (Rect.pos r1)) (y (Rect.pos r2) + y (Rect.size r2))
  && Num.geb (y (Rect.pos r1) + y (Rect.size r1)) (y (Rect.pos r2)).

(** [std::isnan(o)] is never true of a rational, so the branch that
    resets [o] is not taken. *)
Definition overlaps_cr (c : circle) (r : rect) : bool :=
  let o :=
    mag2 (sub (mk (Num.clamp (x (Circle.pos c)) (x (Rect.pos r))
                             (x (Rect.pos r) + x (Rect.size r)))
                  (Num.clamp (y (Circle.pos c)) (y (Rect.pos r))
                             (y (Rect.pos r) + y (Rect.size r))))
              (Circle.pos c)) in
  Num.ltb (o - Circle.radius c * Circle.radius c) 0.

Definition intersects_vr (p : vec2) (r : rect) : result (list vec2) :=
  intersects_rv r p.

Definition intersects_lr (narrow : Q -> Q) (l : line) (r : rect)
  : result (list vec2) :=
  intersects_rl narrow r l.

Definition intersects_rr (r1 r2 : rect) : list vec2 := [].

Definition intersects_cr (c : circle) (r : rect) : list vec2 := [].

(** *** A shape against a circle *)

Definition contains_vc (p : vec2) (c : circle) : bool := false.

Definition contains_lc (l : line) (c : circle) : bool := false.

Definition contains_rc (r : rect) (c : circle) : bool := false.

Definition contains_cc (c1 c2 : circle) : bool :=
  Num.leb (mag2 (sub (Circle.pos c1) (Circle.pos c2)))
          ((Circle.radius c1 - Circle.radius c2)
           * (Circle.radius c1 - Circle.radius c2)).

Definition overlaps_vc (p : vec2) (c : circle) : bool := overlaps_cv c p.

Definition overlaps_lc (l : line) (c : circle) : result bool := overlaps_cl c l.

Definition overlaps_rc (r : rect) (c : circle) : bool := overlaps_cr c r.

Definition overlaps_cc (c1 c2 : circle) : bool :=
  Num.leb (mag2 (sub (Circle.pos c1) (Circle.pos c2)))
          ((Circle.radius c1 + Circle.radius c2)
           * (Circle.radius c1 + Circle.radius c2)).

Definition intersects_vc (p : vec2) (c : circle) : list vec2 := [].

Definition intersects_lc (l : line) (c : circle) : list vec2 := [].

Definition intersects_rc (r : rect) (c : circle) : list vec2 := [].

Definition intersects_cc (c1 c2 : circle) : list vec2 := [].

(** *** Bounding shapes

    The suffix names the argument type. *)

Definition envelope_c_v (p : vec2) : circle := Circle.mk p 0.

Definition envelope_c_c (c : circle) : circle := c.

Definition envelope_r_v (p : vec2) : rect := Rect.mk p (mk 0 0).

Definition envelope_r_l (l : line) : rect :=
  Rect.mk (mk (Num.min (x (Line.start l)) (x (Line.end_ l)))
              (Num.min (y (Line.start l)) (y (Line.end_ l))))
          (mk (Qabs (x (Line.start l) - x (Line.end_ l)))
              (Qabs (y (Line.start l) - y (Line.end_ l)))).

Definition envelope_r_r (r : rect) : rect := r.

Definition envelope_r_c (c : circle) : rect :=
  Rect.mk (sub (Circle.pos c) (mk (Circle.radius c) (Circle.radius c)))
          (mk (Circle.radius c * 2) (Circle.radius c * 2)).

End Geometry.

(** ** Overload resolution

    A call [overlaps(a, b)] or [contains(a, b)] picks its overload by the
    static types of the two arguments.  [shape] is the sum of the four
    argument types and the two dispatchers select the overload;
    [overlaps] passes the conversion to [float] on to the overloads
    that test segments against segments. *)

Inductive shape : Type :=
| SVec (p : vec2)
| SLine (l : line)
| SRect (r : rect)
| SCircle (c : circle).

Definition overlaps (narrow : Q -> Q) (a b : shape) : result bool :=
  match a, b with
  | SVec p1, SVec p2 => Ok (Geometry.overlaps_vv p1 p2)
  | SLine l, SVec p => Geometry.overlaps_lv l p
  | SRect r, SVec p => Ok (Geometry.overlaps_rv r p)
  | SCircle c, SVec p => Ok (Geometry.overlaps_cv c p)
  | SVec p, SLine l => Geometry.overlaps_vl p l
  | SLine l1, SLine l2 => Geometry.overlaps_ll narrow l1 l2
  | SRect r, SLine l => Geometry.overlaps_rl narrow r l
  | SCircle c, SLine l => Geometry.overlaps_cl c l
  | SVec p, SRect r => Ok (Geometry.overlaps_vr p r)
  | SLine l, SRect r => Geometry.overlaps_lr narrow l r
  | SRect r1, SRect r2 => Ok (Geometry.overlaps_rr r1 r2)
  | SCircle c, SRect r => Ok (Geometry.overlaps_cr c r)
  | SVec p, SCircle c => Ok (Geometry.overlaps_vc p c)
  | SLine l, SCircle c => Geometry.overlaps_lc l c
  | SRect r, SCircle c => Ok (Geometry.overlaps_rc r c)
  | SCircle c1, SCircle c2 => Ok (Geometry.overlaps_cc c1 c2)
  end.

Definition contains (a b : shape) : result bool :=
  match a, b with
  | SVec p1, SVec p2 => Ok (Geometry.contains_vv p1 p2)
  | SLine l, SVec p => Geometry.contains_lv l p
  | SRect r, SVec p => Ok (Geometry.contains_rv r p)
  | SCircle c, SVec p => Ok (Geometry.contains_cv c p)
  | SVec p, SLine l => Ok (Geometry.contains_vl p l)
  | SLine l1, SLine l2 => Ok (Geometry.contains_ll l1 l2)
  | SRect r, SLine l => Ok (Geometry.contains_rl r l)
  | SCircle c, SLine l => Ok (Geometry.contains_cl c l)
  | SVec p, SRect r => Ok (Geometry.contains_vr p r)
  | SLine l, SRect r => Ok (Geometry.contains_lr l r)
  | SRect r1, SRect r2 => Ok (Geometry.contains_rr r1 r2)
  | SCircle c, SRect r => Ok (Geometry.contains_cr c r)
  | SVec p, SCircle c => Ok (Geometry.contains_vc p c)
  | SLine l, SCircle c => Ok (Geometry.contains_lc l c)
  | SRect r, SCircle c => Ok (Geometry.contains_rc r c)
  | SCircle c1, SCircle c2 => Ok (Geometry.contains_cc c1 c2)
  end.

(** ** Points of a segment

    The point set of a segment, against which the results of the code
    are compared: a point lies on a segment when it is [point(t)] for a
    parameter [t] of [[0, 1]]. *)

Definition on_segment (l : line) (p : vec2) : Prop :=
  exists u : Q, 0 <= u /\ u <= 1 /\ p =v= Line.point l u.

(** [m] returns a point whose coordinates are those of [v]. *)
Definition returns_point (m : result vec2) (v : vec2) : Prop :=
  exists w : vec2, m = Ok w /\ w =v= v.

(** The boundary of a rect as [intersects(rect, vec2)] tests it: [p] is
    within the span of an edge and its offset from the edge's line,
    scaled by the edge's length, is below [eps]. *)

Definition near_edge (r : rect) (p : vec2) : Prop :=
  let px := Vec2.x p in
  let py := Vec2.y p in
  let x0 := Vec2.x (Rect.pos r) in
  let y0 := Vec2.y (Rect.pos r) in
  let w := Vec2.x (Rect.size r) in
  let h := Vec2.y (Rect.size r) in
  (x0 <= px /\ px <= x0 + w
   /\ (Qabs (py - y0) * w < Num.eps \/ Qabs (py - (y0 + h)) * w < Num.eps))
  \/ (y0 <= py /\ py <= y0 + h
      /\ (Qabs (px - x0) * h < Num.eps \/ Qabs (px - (x0 + w)) * h < Num.eps)).

(** ** Shapes that are not degenerate

    A segment of nonzero length, a rect of positive size, a circle of
    nonnegative radius; a point is always proper. *)

Definition proper (a : shape) : Prop :=
  match a with
  | SVec _ => True
  | SLine l => ~ Line.length2 l == 0
  | SRect r => 0 < Vec2.x (Rect.size r) /\ 0 < Vec2.y (Rect.size r)
  | SCircle c => 0 <= Circle.radius c
  end.

(** The point set of a rect: the closed box spanned by [pos] and
    [pos + size]. *)

Definition in_rect (r : rect) (p : vec2) : Prop :=
  Vec2.x (Rect.pos r) <= Vec2.x p
  /\ Vec2.y (Rect.pos r) <= Vec2.y p
  /\ Vec2.x p <= Vec2.x (Rect.pos r) + Vec2.x (Rect.size r)
  /\ Vec2.y p <= Vec2.y (Rect.pos r) + Vec2.y (Rect.size r).

(** The outline of a rect: the points of the closed box that have a
    coordinate on one of the four sides. *)


(** The open disc of a circle, as [contains(circle, vec2)] tests it. *)

Definition in_disc (c : circle) (p : vec2) : Prop :=
  Vec2.mag2 (Vec2.sub (Circle.center c) p)
  < Circle.radius c * Circle.radius c.

(** Two rects touch when a far side of one is on the line of the near
    side of the other. *)

Definition touching (r1 r2 : rect) : Prop :=
  Vec2.x (Rect.pos r1) + Vec2.x (Rect.size r1) == Vec2.x (Rect.pos r2)
  \/ Vec2.x (Rect.pos r2) + Vec2.x (Rect.size r2) == Vec2.x (Rect.pos r1)
  \/ Vec2.y (Rect.pos r1) + Vec2.y (Rect.size r1) == Vec2.y (Rect.pos r2)
  \/ Vec2.y (Rect.pos r2) + Vec2.y (Rect.size r2) == Vec2.y (Rect.pos r1).

(** ** Sample shapes *)

Definition pt (a b : Q) : vec2 := Vec2.mk a b.

Definition seg (a b c d : Q) : line := Line.mk (pt a b) (pt c d).

Definition box (a b w h : Q) : rect := Rect.mk (pt a b) (pt w h).

Definition disc (a b r : Q) : circle := Circle.mk (pt a b) r.

(** * Properties *)

(** ** Comparisons and division *)

Lemma ltb_lt (a b : Q) : Num.ltb a b = true <-> a < b.
Proof.
  unfold Num.ltb. rewrite Qlt_alt.
  destruct (a ?= b); split; congruence.
Qed.

Lemma ltb_ge (a b : Q) : Num.ltb a b = false <-> b <= a.
Proof.
  rewrite <- not_true_iff_false, ltb_lt. split.
  - apply Qnot_lt_le.
  - apply Qle_not_lt.
Qed.

Lemma leb_le (a b : Q) : Num.leb a b = true <-> a <= b.
Proof. apply Qle_bool_iff. Qed.

Lemma leb_gt (a b : Q) : Num.leb a b = false <-> b < a.
Proof.
  rewrite <- not_true_iff_false, leb_le. split.
  - apply Qnot_le_lt.
  - apply Qlt_not_le.
Qed.

Lemma geb_ge (a b : Q) : Num.geb a b = true <-> b <= a.
Proof. apply Qle_bool_iff. Qed.

Lemma geb_lt (a b : Q) : Num.geb a b = false <-> a < b.
Proof. apply leb_gt. Qed.

Lemma eqb_eq (a b : Q) : Num.eqb a b = true <-> a == b.
Proof. apply Qeq_bool_iff. Qed.

Lemma eqb_neq (a b : Q) : Num.eqb a b = false <-> ~ a == b.
Proof. rewrite <- not_true_iff_false, eqb_eq. tauto. Qed.

#[global] Instance ltb_proper : Proper (Qeq ==> Qeq ==> eq) Num.ltb.
Proof.
  intros a a' Ha b b' Hb. apply eq_true_iff_eq.
  rewrite !ltb_lt, Ha, Hb. tauto.
Qed.

#[global] Instance leb_proper : Proper (Qeq ==> Qeq ==> eq) Num.leb.
Proof.
  intros a a' Ha b b' Hb. apply eq_true_iff_eq.
  rewrite !leb_le, Ha, Hb. tauto.
Qed.

#[global] Instance geb_proper : Proper (Qeq ==> Qeq ==> eq) Num.geb.
Proof.
  intros a a' Ha b b' Hb. apply eq_true_iff_eq.
  rewrite !geb_ge, Ha, Hb. tauto.
Qed.

#[global] Instance eqb_proper : Proper (Qeq ==> Qeq ==> eq) Num.eqb.
Proof.
  intros a a' Ha b b' Hb. apply eq_true_iff_eq.
  rewrite !eqb_eq, Ha, Hb. tauto.
Qed.

Lemma div_nonzero (a b : Q) : ~ b == 0 -> Num.div a b = Ok (a / b).
Proof.
  intros Hb. unfold Num.div.
  apply eqb_neq in Hb. now rewrite Hb.
Qed.

Lemma div_zero (a b : Q) : b == 0 -> Num.div a b = DivByZero.
Proof.
  intros Hb. unfold Num.div.
  apply eqb_eq in Hb. now rewrite Hb.
Qed.

(** ** The conversion to [float] *)

Lemma narrow_proper (narrow : Q -> Q) :
  float_conversion narrow -> Proper (Qeq ==> Qeq) narrow.
Proof.
  intros [Hmono _] a b Hab.
  apply Qle_antisym; apply Hmono; rewrite Hab; apply Qle_refl.
Qed.

Lemma narrow_value (narrow : Q -> Q) (x : Q) (m e : Z) :
  float_conversion narrow ->
  (Z.abs m < 2 ^ 24)%Z -> (-149 <= e <= 104)%Z ->
  x == inject_Z m * 2 ^ e ->
  narrow x == x.
Proof.
  intros [_ Hexact] Hm He Hx. apply Hexact. exists m, e. auto.
Qed.

Lemma narrow_dyadic (narrow : Q -> Q) (x : Q) :
  float_conversion narrow -> dyadic32 (Qred x) = true -> narrow x == Qred x.
Proof.
  intros Hn H. unfold dyadic32 in H.
  rewrite !andb_true_iff in H. destruct H as [[[Hm He1] He2] Hv].
  apply Z.ltb_lt in Hm. apply Z.leb_le in He1. apply Z.leb_le in He2.
  apply Qeq_bool_iff in Hv.
  rewrite (narrow_value narrow x (Qnum (Qred x))
             (- Z.log2 (Zpos (Qden (Qred x)))) Hn Hm (conj He1 He2)).
  - symmetry. apply Qred_correct.
  - rewrite <- Hv. symmetry. apply Qred_correct.
Qed.

(** Replaces the conversion of a closed binary32 number by the number. *)
Ltac narrow_step narrow Hn :=
  match goal with
  | |- context [narrow ?x] =>
      lazymatch x with context [narrow] => fail | _ => idtac end;
      let H := fresh "Hnarrow" in
      assert (H : narrow x == Qred x)
        by (apply (narrow_dyadic narrow x Hn); vm_compute; reflexivity);
      rewrite H; clear H
  end.

Lemma narrow_zero (narrow : Q -> Q) (x : Q) :
  float_conversion narrow -> x == 0 -> narrow x == 0.
Proof.
  intros Hn Hx.
  rewrite (narrow_value narrow x 0 0 Hn); [exact Hx | lia | lia |].
  rewrite Hx. reflexivity.
Qed.

Lemma same_type_conversion : float_conversion same_type.
Proof.
  split.
  - intros a b Hab. exact Hab.
  - intros q _. reflexivity.
Qed.

Lemma same_type_proper : Proper (Qeq ==> Qeq) same_type.
Proof. intros a b Hab. exact Hab. Qed.

Lemma binary32_proper : Proper (Qeq ==> Qeq) binary32.
Proof.
  intros a b Hab. unfold binary32.
  now rewrite (Qred_complete a b Hab).
Qed.

(** The rounding is not the identity: [1/6] and [1/10] are not binary32
    numbers, [3/4] is, and [2 ^ 24 + 1] loses its last bit. *)
Lemma binary32_samples :
  binary32 (1 # 6) = 11184811 # 67108864
  /\ binary32 (1 # 10) = 13421773 # 134217728
  /\ binary32 (3 # 4) = 3 # 4
  /\ binary32 (16777217 # 1) = 16777216 # 1.
Proof. repeat split; vm_compute; reflexivity. Qed.

Lemma clamp_cases (v lo hi : Q) :
  (v < lo /\ Num.clamp v lo hi = lo)
  \/ (lo <= v /\ hi < v /\ Num.clamp v lo hi = hi)
  \/ (lo <= v /\ v <= hi /\ Num.clamp v lo hi = v).
Proof.
  unfold Num.clamp.
  destruct (Num.ltb v lo) eqn:E1.
  - left. apply ltb_lt in E1. tauto.
  - apply ltb_ge in E1. destruct (Num.ltb hi v) eqn:E2.
    + right; left. apply ltb_lt in E2. tauto.
    + right; right. apply ltb_ge in E2. tauto.
Qed.

Lemma clamp_bounds (v lo hi : Q) :
  lo <= hi -> lo <= Num.clamp v lo hi /\ Num.clamp v lo hi <= hi.
Proof.
  intros Hle.
  destruct (clamp_cases v lo hi) as [[H ->] | [(H1 & H2 & ->) | (H1 & H2 & ->)]];
    split; lra.
Qed.

(** ** [rect::perim] *)

(** C2.  The claim asks for [2 * (size.x + size.y)], so [8] for a rect
    of size [(2, 2)].  The code multiplies by [T(1)]: [perim] is
    [size.x + size.y] for every rect, it is [4] for size [(2, 2)], and
    it agrees with the claimed formula only when [size.x + size.y] is
    zero. *)
Theorem perim_is_half_perimeter :
  (forall r : rect,
      Rect.perim r == Vec2.x (Rect.size r) + Vec2.y (Rect.size r))
  /\ (forall r : rect,
         Rect.perim r == 2 * (Vec2.x (Rect.size r) + Vec2.y (Rect.size r))
         <-> Vec2.x (Rect.size r) + Vec2.y (Rect.size r) == 0)
  /\ Rect.perim (box 0 0 2 2) == 4
  /\ ~ Rect.perim (box 0 0 2 2) == 8.
Proof.
  split; [| split; [| split]].
  - intros r. unfold Rect.perim. ring.
  - intros r. unfold Rect.perim. split; intros H; lra.
  - reflexivity.
  - discriminate.
Qed.

(** ** [rect::side] *)

Lemma side_of_rem (r : rect) (i : Z) :
  Rect.side r i = Rect.side r (Z.rem i 4).
Proof.
  unfold Rect.side.
  now rewrite Z.rem_rem by discriminate.
Qed.

Lemma side_negative (r : rect) (i : Z) :
  (i < 0)%Z -> Z.rem i 4 <> 0%Z -> Rect.side r i = Line.default.
Proof.
  intros Hi Hrem. unfold Rect.side.
  pose proof (Z.rem_nonpos i 4 ltac:(lia) ltac:(lia)) as Hb.
  destruct (Z.rem i 4) as [| q | q]; try lia.
  reflexivity.
Qed.

(** C5, counterexample.  At [i = -1] the remainder [i % 4] is [-1], so
    [side] returns the default segment [(0,0)-(0,0)], while side [3]
    (that is [-1 mod 4]) of the unit rect is its left edge, which ends
    at [(0, 1)]. *)
Lemma side_minus_one_is_not_left :
  Rect.side (box 0 0 1 1) (-1) = Line.default
  /\ Rect.side (box 0 0 1 1) ((-1) mod 4) = Rect.left (box 0 0 1 1)
  /\ ~ Line.end_ (Rect.side (box 0 0 1 1) (-1))
       =v= Line.end_ (Rect.side (box 0 0 1 1) ((-1) mod 4)).
Proof.
  split; [reflexivity | split; [reflexivity |]].
  intros [_ Hy]. vm_compute in Hy. discriminate.
Qed.

(** C5, amended.  For every index [i >= 0], [side(i)] is [side(i mod 4)],
    and it is the top, right, bottom or left edge as [i mod 4] is 0, 1,
    2 or 3. *)
Theorem side_mod4_nonneg (r : rect) (i : Z) :
  (0 <= i)%Z ->
  Rect.side r i = Rect.side r (i mod 4)
  /\ Rect.side r i
     = nth (Z.to_nat (i mod 4))
           [Rect.top r; Rect.right r; Rect.bottom r; Rect.left r]
           Line.default.
Proof.
  intros Hi.
  assert (Hrem : Z.rem i 4 = (i mod 4)%Z) by (apply Z.rem_mod_nonneg; lia).
  pose proof (Z.mod_pos_bound i 4 ltac:(lia)) as Hb.
  split.
  - rewrite side_of_rem, Hrem. reflexivity.
  - unfold Rect.side. rewrite Hrem.
    destruct (i mod 4)%Z as [| q | q]; try lia.
    + reflexivity.
    + destruct q as [[| |] | [| |] |]; try lia; reflexivity.
Qed.

Lemma side_mod4_nonneg_witness :
  Rect.side (box 0 0 1 1) 6 = Rect.side (box 0 0 1 1) (6 mod 4)
  /\ Rect.side (box 0 0 1 1) 6
     = nth (Z.to_nat (6 mod 4))
           [Rect.top (box 0 0 1 1); Rect.right (box 0 0 1 1);
            Rect.bottom (box 0 0 1 1); Rect.left (box 0 0 1 1)]
           Line.default.
Proof. apply (side_mod4_nonneg (box 0 0 1 1) 6). lia. Defined.

(** ** [contains(rect, rect)] *)

(** C4.  The claim has [contains(r, r)] true.  The far sides are
    compared with [<], so no rect contains itself, whatever its size:
    [contains(r, r)] is false for every [r]. *)
Theorem contains_rr_irreflexive (r : rect) :
  contains (SRect r) (SRect r) = Ok false.
Proof.
  simpl. unfold Geometry.contains_rr.
  assert (H : forall a : Q, Num.ltb a a = false)
    by (intros a; apply ltb_ge; lra).
  now rewrite !H, !andb_false_r.
Qed.

(** The sibling overload for a point has inclusive bounds on all four
    sides: every corner of a rect of nonnegative size is contained. *)
Lemma contains_rv_corners (r : rect) :
  0 <= Vec2.x (Rect.size r) -> 0 <= Vec2.y (Rect.size r) ->
  Geometry.contains_rv r (Rect.pos r) = true
  /\ Geometry.contains_rv r (Vec2.add (Rect.pos r) (Rect.size r)) = true.
Proof.
  intros Hw Hh. unfold Geometry.contains_rv, Vec2.add. simpl.
  split; repeat (apply andb_true_intro; split);
    first [apply geb_ge | apply leb_le]; lra.
Qed.

(** ** [contains(circle, vec2)] *)

(** C8.  [contains(circle, vec2)] is the strict test
    [distance^2 < radius^2], in coordinates
    [(cx - px)^2 + (cy - py)^2 < r^2]; a point at distance exactly
    [radius] is not contained.  The circle of centre [(0,0)] and radius
    [2] contains [(1,0)] and does not contain [(2,0)]; the circle of
    centre [(5,5)] and radius [1] contains its centre and
    [(11/2, 11/2)], and does not contain [(6,5)], which is on it, nor
    the origin. *)
Theorem contains_cv_strict :
  (forall (c : circle) (p : vec2),
      Geometry.contains_cv c p = true
      <-> (Vec2.x (Circle.center c) - Vec2.x p)
          * (Vec2.x (Circle.center c) - Vec2.x p)
          + (Vec2.y (Circle.center c) - Vec2.y p)
            * (Vec2.y (Circle.center c) - Vec2.y p)
          < Circle.radius c * Circle.radius c)
  /\ (forall (c : circle) (p : vec2),
         (Vec2.x (Circle.center c) - Vec2.x p)
         * (Vec2.x (Circle.center c) - Vec2.x p)
         + (Vec2.y (Circle.center c) - Vec2.y p)
           * (Vec2.y (Circle.center c) - Vec2.y p)
         == Circle.radius c * Circle.radius c ->
         Geometry.contains_cv c p = false)
  /\ Geometry.contains_cv (disc 0 0 2) (pt 1 0) = true
  /\ Geometry.contains_cv (disc 0 0 2) (pt 2 0) = false
  /\ Geometry.contains_cv (disc 5 5 1) (pt 5 5) = true
  /\ Geometry.contains_cv (disc 5 5 1) (pt (11 # 2) (11 # 2)) = true
  /\ Geometry.contains_cv (disc 5 5 1) (pt 6 5) = false
  /\ Geometry.contains_cv (disc 5 5 1) (pt 0 0) = false.
Proof.
  split; [| split].
  - intros c p. unfold Geometry.contains_cv, Circle.pos. apply ltb_lt.
  - intros c p H. unfold Geometry.contains_cv, Circle.pos.
    apply ltb_ge. unfold Vec2.mag2, Vec2.sub.
    cbn [Vec2.x Vec2.y]. rewrite H. apply Qle_refl.
  - repeat split; reflexivity.
Qed.

Lemma contains_cv_strict_witness :
  Geometry.contains_cv (disc 5 5 1) (pt 6 5) = false.
Proof.
  apply (proj1 (proj2 contains_cv_strict) (disc 5 5 1) (pt 6 5)).
  reflexivity.
Defined.

(** ** Symmetry of [overlaps] *)

Lemma cross_antisym (v w : vec2) : Vec2.cross v w == - Vec2.cross w v.
Proof. unfold Vec2.cross. ring. Qed.

Lemma mag2_sub_sym (v w : vec2) :
  Vec2.mag2 (Vec2.sub v w) == Vec2.mag2 (Vec2.sub w v).
Proof. unfold Vec2.mag2, Vec2.sub. simpl. ring. Qed.

Lemma overlaps_vv_sym (p1 p2 : vec2) :
  Geometry.overlaps_vv p1 p2 = Geometry.overlaps_vv p2 p1.
Proof.
  unfold Geometry.overlaps_vv, Geometry.contains_vv.
  now rewrite mag2_sub_sym.
Qed.

Lemma overlaps_cc_sym (c1 c2 : circle) :
  Geometry.overlaps_cc c1 c2 = Geometry.overlaps_cc c2 c1.
Proof.
  unfold Geometry.overlaps_cc.
  rewrite mag2_sub_sym.
  apply leb_proper; [reflexivity | ring].
Qed.

(** Exchanging the two segments negates the denominator and exchanges
    the two parameters: the outcome is the same, a division by zero
    included. *)
Lemma overlaps_ll_sym (narrow : Q -> Q) (l1 l2 : line) :
  Proper (Qeq ==> Qeq) narrow ->
  Geometry.overlaps_ll narrow l1 l2 = Geometry.overlaps_ll narrow l2 l1.
Proof.
  intros Hn. unfold Geometry.overlaps_ll.
  set (v1 := Line.vec l1). set (v2 := Line.vec l2).
  set (s12 := Vec2.sub (Line.start l1) (Line.start l2)).
  set (s21 := Vec2.sub (Line.start l2) (Line.start l1)).
  assert (Hs1 : Vec2.cross v1 s21 == - Vec2.cross v1 s12)
    by (unfold Vec2.cross, s21, s12, Vec2.sub; simpl; ring).
  assert (Hs2 : Vec2.cross v2 s21 == - Vec2.cross v2 s12)
    by (unfold Vec2.cross, s21, s12, Vec2.sub; simpl; ring).
  pose proof (cross_antisym v1 v2) as Hd.
  destruct (Qeq_dec (Vec2.cross v2 v1) 0) as [Hz | Hnz].
  - rewrite (div_zero _ (Vec2.cross v2 v1)) by exact Hz.
    rewrite (div_zero _ (Vec2.cross v1 v2)) by (rewrite Hd, Hz; reflexivity).
    reflexivity.
  - assert (Hnz' : ~ Vec2.cross v1 v2 == 0) by (rewrite Hd; lra).
    rewrite !div_nonzero by assumption. simpl. f_equal.
    assert (E1 : Vec2.cross v1 s21 / Vec2.cross v1 v2
                 == Vec2.cross v1 s12 / Vec2.cross v2 v1)
      by (rewrite Hs1, Hd; field; exact Hnz).
    assert (E2 : Vec2.cross v2 s21 / Vec2.cross v1 v2
                 == Vec2.cross v2 s12 / Vec2.cross v2 v1)
      by (rewrite Hs2, Hd; field; exact Hnz).
    rewrite E1, E2.
    destruct (Num.geb _ 0), (Num.leb _ 1), (Num.geb _ 0), (Num.leb _ 1);
      reflexivity.
Qed.

(** Every pair of argument types but (rect, rect) is symmetric: the
    reverse orders forward to one overload, and the point, segment and
    circle pairs are symmetric tests. *)
Lemma overlaps_sym_unless_rects (narrow : Q -> Q) (a b : shape) :
  Proper (Qeq ==> Qeq) narrow ->
  (forall r1 r2, a = SRect r1 -> b = SRect r2 -> False) ->
  overlaps narrow a b = overlaps narrow b a.
Proof.
  intros Hn Hrr.
  destruct a as [p1 | l1 | r1 | c1], b as [p2 | l2 | r2 | c2]; simpl;
    try reflexivity.
  - now rewrite overlaps_vv_sym.
  - now apply overlaps_ll_sym.
  - exfalso. exact (Hrr r1 r2 eq_refl eq_refl).
  - now rewrite overlaps_cc_sym.
Qed.

(** C1.  The claim has [overlaps(r1, r2) == overlaps(r2, r1)] for every
    pair of rects.  The rect overload compares the near side with [<]
    and the far side with [>=]: the unit rect at [(0,0)] overlaps the
    unit rect at [(1,1)], which touches it at a corner, and the second
    does not overlap the first.  No [float] local is involved: this
    holds whatever the conversion is. *)
Theorem overlaps_rr_asymmetric (narrow : Q -> Q) :
  overlaps narrow (SRect (box 0 0 1 1)) (SRect (box 1 1 1 1)) = Ok true
  /\ overlaps narrow (SRect (box 1 1 1 1)) (SRect (box 0 0 1 1)) = Ok false.
Proof. split; vm_compute; reflexivity. Qed.

(** ** Segments with parallel directions *)

(** C6.  The claim has [overlaps(line, line)] return false without
    dividing when [d == 0].  The code divides by [d] before any test:
    for every pair of segments whose direction vectors have a zero cross
    product the outcome is the division by zero, not [false].  The
    division is done in [T], before the quotient is converted to
    [float]: this holds whatever the conversion is. *)
Theorem overlaps_ll_parallel_divides (narrow : Q -> Q) (l1 l2 : line) :
  Vec2.cross (Line.vec l2) (Line.vec l1) == 0 ->
  overlaps narrow (SLine l1) (SLine l2) = DivByZero.
Proof.
  intros Hd. simpl. unfold Geometry.overlaps_ll.
  now rewrite div_zero.
Qed.

Lemma overlaps_ll_parallel_divides_witness :
  overlaps same_type (SLine (seg 0 0 1 0)) (SLine (seg 0 1 1 1)) = DivByZero.
Proof.
  apply (overlaps_ll_parallel_divides same_type (seg 0 0 1 0) (seg 0 1 1 1)).
  reflexivity.
Defined.

(** A segment against itself (the coincident case) divides by zero too. *)
Lemma overlaps_ll_self (narrow : Q -> Q) (l : line) :
  Geometry.overlaps_ll narrow l l = DivByZero.
Proof.
  unfold Geometry.overlaps_ll. rewrite div_zero; [reflexivity |].
  unfold Vec2.cross. ring.
Qed.

(** When [d] is not zero both divisions are defined, and the outcome is
    the range test on the two converted quotients. *)
Lemma overlaps_ll_value (narrow : Q -> Q) (l1 l2 : line) :
  ~ Vec2.cross (Line.vec l2) (Line.vec l1) == 0 ->
  Geometry.overlaps_ll narrow l1 l2
  = let d := Vec2.cross (Line.vec l2) (Line.vec l1) in
    let ac := Vec2.sub (Line.start l1) (Line.start l2) in
    let u1 := narrow (Vec2.cross (Line.vec l2) ac / d) in
    let u2 := narrow (Vec2.cross (Line.vec l1) ac / d) in
    Ok (Num.geb u1 0 && Num.leb u1 1 && Num.geb u2 0 && Num.leb u2 1).
Proof.
  intros Hd. unfold Geometry.overlaps_ll.
  rewrite !div_nonzero by exact Hd. reflexivity.
Qed.

(** The sibling [intersects(line, line)] tests [rd == 0] before it
    divides: it never divides by zero, and parallel segments give the
    empty set. *)
Lemma intersects_ll_total (narrow : Q -> Q) (l1 l2 : line) :
  exists pts : list vec2, Geometry.intersects_ll narrow l1 l2 = Ok pts.
Proof.
  unfold Geometry.intersects_ll.
  destruct (Num.eqb _ 0) eqn:E; [eauto |].
  apply eqb_neq in E. rewrite div_nonzero by exact E. simpl.
  destruct (_ || _); eauto.
Qed.

Lemma intersects_ll_parallel (narrow : Q -> Q) (l1 l2 : line) :
  float_conversion narrow ->
  Vec2.cross (Line.vec l1) (Line.vec l2) == 0 ->
  Geometry.intersects_ll narrow l1 l2 = Ok [].
Proof.
  intros Hn Hd. unfold Geometry.intersects_ll.
  pose proof (narrow_zero narrow _ Hn Hd) as Hz.
  apply eqb_eq in Hz. now rewrite Hz.
Qed.

(** ** Containment and overlap *)

(** Circle in circle, the pair the claim names: with nonnegative radii
    containment implies overlap. *)
Lemma contains_cc_overlaps_cc (c1 c2 : circle) :
  0 <= Circle.radius c1 -> 0 <= Circle.radius c2 ->
  Geometry.contains_cc c1 c2 = true -> Geometry.overlaps_cc c1 c2 = true.
Proof.
  unfold Geometry.contains_cc, Geometry.overlaps_cc.
  intros H1 H2 Hc. apply leb_le in Hc. apply leb_le.
  eapply Qle_trans; [exact Hc |]. nra.
Qed.

(** Rect in rect: with a second rect of positive size containment
    implies overlap; a rect of zero size at the corner of the first one
    is contained and does not overlap. *)
Lemma contains_rr_overlaps_rr (r1 r2 : rect) :
  0 < Vec2.x (Rect.size r2) -> 0 < Vec2.y (Rect.size r2) ->
  Geometry.contains_rr r1 r2 = true -> Geometry.overlaps_rr r1 r2 = true.
Proof.
  unfold Geometry.contains_rr, Geometry.overlaps_rr.
  intros Hw Hh Hc.
  rewrite !andb_true_iff, !geb_ge, !ltb_lt in Hc.
  rewrite !andb_true_iff, !geb_ge, !ltb_lt. lra.
Qed.

Lemma contains_rr_point_rect :
  Geometry.contains_rr (box 0 0 1 1) (box 0 0 0 0) = true
  /\ Geometry.overlaps_rr (box 0 0 1 1) (box 0 0 0 0) = false.
Proof. split; reflexivity. Qed.

(** Circle and point, rect and point, point and point: [overlaps]
    forwards to [contains]. *)
Lemma contains_overlaps_point (narrow : Q -> Q) (a : shape) (p : vec2) :
  contains a (SVec p) = overlaps narrow a (SVec p).
Proof. destruct a; reflexivity. Qed.

(** C7.  The claim has [contains(A, B)] imply [overlaps(A, B)] for every
    implemented pair.  For (rect, line) [contains] tests the two end
    points against the filled rect and [overlaps] tests the four edges
    only: the rect at [(0,0)] of size [(4,4)] contains the segment
    [(1,2)-(3,3)], which lies inside it, and does not overlap it.  The
    quotients of the four edge tests ([3/4] and [2], [-5/4], [-3/8],
    [-7/8]) are binary32 numbers, which the conversion to [float] leaves
    unchanged. *)
Theorem contains_rl_without_overlap (narrow : Q -> Q) :
  float_conversion narrow ->
  contains (SRect (box 0 0 4 4)) (SLine (seg 1 2 3 3)) = Ok true
  /\ overlaps narrow (SRect (box 0 0 4 4)) (SLine (seg 1 2 3 3)) = Ok false.
Proof.
  intros Hn. split; [reflexivity |].
  pose proof (narrow_proper narrow Hn) as Hp.
  unfold overlaps, Geometry.overlaps_rl.
  rewrite !overlaps_ll_value by (vm_compute; discriminate).
  cbv zeta. repeat narrow_step narrow Hn.
  vm_compute. reflexivity.
Qed.

Lemma contains_rl_without_overlap_witness :
  contains (SRect (box 0 0 4 4)) (SLine (seg 1 2 3 3)) = Ok true
  /\ overlaps same_type (SRect (box 0 0 4 4)) (SLine (seg 1 2 3 3))
     = Ok false.
Proof.
  apply (contains_rl_without_overlap same_type).
  split; [intros a b H; exact H | intros q H; reflexivity].
Defined.

(** ** [closest(line, vec2)] *)

(** C9.  For a segment of nonzero length [closest(line, vec2)] evaluates
    the parametric point at the projection parameter clamped into
    [[0, 1]].  In coordinates, with [d = end - start] and
    [u = (d.x * (p.x - start.x) + d.y * (p.y - start.y))
         / (d.x^2 + d.y^2)],
    the result is [(start.x + k * d.x, start.y + k * d.y)] where [k] is
    [0] when [u < 0], [1] when [u > 1] and [u] otherwise: a point
    between the two end points.  On the segment [(0,0)-(10,0)] the
    closest point to [(5,5)] is [(5,0)] and the closest point to
    [(-5,5)] is [(0,0)]; away from the origin, the closest point of
    [(1,0)-(2,0)] to [(5,0)] is the end point [(2,0)], the closest
    point of [(1,1)-(3,3)] to [(3,1)] is [(2,2)] and to the origin is
    [(1,1)], and the closest point of [(2,1)-(2,5)] to [(7,4)] is
    [(2,4)]. *)
Theorem closest_lv_clamps :
  (forall (l : line) (p : vec2),
      let sx := Vec2.x (Line.start l) in
      let sy := Vec2.y (Line.start l) in
      let dx := Vec2.x (Line.end_ l) - sx in
      let dy := Vec2.y (Line.end_ l) - sy in
      let u := (dx * (Vec2.x p - sx) + dy * (Vec2.y p - sy))
               / (dx * dx + dy * dy) in
      ~ dx * dx + dy * dy == 0 ->
      exists k : Q,
        Geometry.closest_lv l p = Ok (Vec2.mk (sx + k * dx) (sy + k * dy))
        /\ 0 <= k /\ k <= 1
        /\ ((u < 0 /\ k = 0) \/ (1 < u /\ k = 1)
            \/ (0 <= u /\ u <= 1 /\ k = u)))
  /\ returns_point (Geometry.closest_lv (seg 0 0 10 0) (pt 5 5)) (pt 5 0)
  /\ returns_point (Geometry.closest_lv (seg 0 0 10 0) (pt (-5) 5)) (pt 0 0)
  /\ returns_point (Geometry.closest_lv (seg 1 0 2 0) (pt 5 0)) (pt 2 0)
  /\ returns_point (Geometry.closest_lv (seg 1 1 3 3) (pt 3 1)) (pt 2 2)
  /\ returns_point (Geometry.closest_lv (seg 1 1 3 3) (pt 0 0)) (pt 1 1)
  /\ returns_point (Geometry.closest_lv (seg 2 1 2 5) (pt 7 4)) (pt 2 4).
Proof.
  split.
  - intros l p sx sy dx dy u Hlen.
    exists (Num.clamp u 0 1). split; [| split; [| split]].
    + unfold Geometry.closest_lv.
      rewrite div_nonzero by exact Hlen. reflexivity.
    + apply clamp_bounds. lra.
    + apply clamp_bounds. lra.
    + destruct (clamp_cases u 0 1) as [[H E] | [(H1 & H2 & E) | (H1 & H2 & E)]];
        rewrite E; tauto.
  - repeat split;
      (eexists; split; [vm_compute; reflexivity | split; reflexivity]).
Qed.

Lemma closest_lv_clamps_witness :
  exists k : Q,
    Geometry.closest_lv (seg 1 0 2 0) (pt 5 0)
    = Ok (Vec2.mk (1 + k * (2 - 1)) (0 + k * (0 - 0)))
    /\ 0 <= k /\ k <= 1.
Proof.
  destruct (proj1 closest_lv_clamps (seg 1 0 2 0) (pt 5 0))
    as (k & Hk & H0 & H1 & _).
  - discriminate.
  - exists k. auto.
Defined.

(** The result is a point of the segment: no extrapolation. *)
Lemma closest_lv_on_segment (l : line) (p : vec2) :
  ~ Line.length2 l == 0 ->
  exists q : vec2, Geometry.closest_lv l p = Ok q /\ on_segment l q.
Proof.
  intros Hlen. unfold Geometry.closest_lv.
  rewrite div_nonzero by exact Hlen. cbn [bind].
  eexists. split; [reflexivity |].
  match goal with
  | |- context [Num.clamp ?u 0 1] => exists (Num.clamp u 0 1)
  end.
  pose proof (clamp_bounds
    (Vec2.dot (Line.vec l) (Vec2.sub p (Line.start l)) / Line.length2 l)
    0 1 ltac:(lra)) as [H0 H1].
  repeat split; try assumption; reflexivity.
Qed.

(** A segment of zero length makes the projection divide by zero. *)
Lemma closest_lv_degenerate (l : line) (p : vec2) :
  Line.length2 l == 0 -> Geometry.closest_lv l p = DivByZero.
Proof.
  intros Hlen. unfold Geometry.closest_lv. now rewrite div_zero.
Qed.

(** ** [intersects(line, line)] *)

(** On segments that are not parallel, the supporting lines meet at the
    parameters [k1 = d2 x (A - C) / (d1 x d2)] on the first and
    [k2 = d1 x (A - C) / (d1 x d2)] on the second, where [A], [C] are
    the start points and [d1], [d2] the directions; no other pair of
    parameters gives a common point. *)
Lemma crossing_parameters (l1 l2 : line) :
  let rd := Vec2.cross (Line.vec l1) (Line.vec l2) in
  let ac := Vec2.sub (Line.start l1) (Line.start l2) in
  ~ rd == 0 ->
  Line.point l1 (Vec2.cross (Line.vec l2) ac / rd)
  =v= Line.point l2 (Vec2.cross (Line.vec l1) ac / rd)
  /\ (forall k1 k2 : Q,
         Line.point l1 k1 =v= Line.point l2 k2 ->
         k1 == Vec2.cross (Line.vec l2) ac / rd
         /\ k2 == Vec2.cross (Line.vec l1) ac / rd).
Proof.
  destruct l1 as [[ax ay] [bx by_]], l2 as [[cx cy] [dx dy]].
  unfold Line.point, Line.vec, Vec2.cross, Vec2.sub, Vec2.add, Vec2.scale,
    Vec2.eq. simpl.
  intros Hrd. split.
  - split; field; exact Hrd.
  - intros k1 k2 [Hx Hy].
    set (rd := (bx - ax) * (dy - cy) - (by_ - ay) * (dx - cx)) in *.
    assert (Px : (ax + k1 * (bx - ax)) * (dy - cy)
                 == (cx + k2 * (dx - cx)) * (dy - cy))
      by (rewrite Hx; reflexivity).
    assert (Py : (ay + k1 * (by_ - ay)) * (dx - cx)
                 == (cy + k2 * (dy - cy)) * (dx - cx))
      by (rewrite Hy; reflexivity).
    assert (Qx : (ax + k1 * (bx - ax)) * (by_ - ay)
                 == (cx + k2 * (dx - cx)) * (by_ - ay))
      by (rewrite Hx; reflexivity).
    assert (Qy : (ay + k1 * (by_ - ay)) * (bx - ax)
                 == (cy + k2 * (dy - cy)) * (bx - ax))
      by (rewrite Hy; reflexivity).
    assert (E1 : k1 * rd
                 == (dx - cx) * (ay - cy) - (dy - cy) * (ax - cx))
      by (unfold rd; lra).
    assert (E2 : k2 * rd
                 == (bx - ax) * (ay - cy) - (by_ - ay) * (ax - cx))
      by (unfold rd; lra).
    split.
    + rewrite <- E1. field. exact Hrd.
    + rewrite <- E2. field. exact Hrd.
Qed.

(** What [intersects(line, line)] computes when the converted
    determinant is not zero: [rn] and [sn] are the two converted
    products by the converted inverse, and the parametric point at [rn]
    is returned when both are in [[0, 1]]. *)
Lemma intersects_ll_value (narrow : Q -> Q) (l1 l2 : line) :
  let rd := narrow (Vec2.cross (Line.vec l1) (Line.vec l2)) in
  let rd' := narrow (1 / rd) in
  let rn :=
    narrow (((Vec2.x (Line.end_ l2) - Vec2.x (Line.start l2))
               * (Vec2.y (Line.start l1) - Vec2.y (Line.start l2))
             - (Vec2.y (Line.end_ l2) - Vec2.y (Line.start l2))
               * (Vec2.x (Line.start l1) - Vec2.x (Line.start l2))) * rd') in
  let sn :=
    narrow (((Vec2.x (Line.end_ l1) - Vec2.x (Line.start l1))
               * (Vec2.y (Line.start l1) - Vec2.y (Line.start l2))
             - (Vec2.y (Line.end_ l1) - Vec2.y (Line.start l2))
               * (Vec2.x (Line.start l1) - Vec2.x (Line.start l2))) * rd') in
  ~ rd == 0 ->
  (0 <= rn /\ rn <= 1 /\ 0 <= sn /\ sn <= 1 ->
   Geometry.intersects_ll narrow l1 l2 = Ok [Line.point l1 rn])
  /\ (~ (0 <= rn /\ rn <= 1 /\ 0 <= sn /\ sn <= 1) ->
      Geometry.intersects_ll narrow l1 l2 = Ok []).
Proof.
  intros rd rd' rn sn Hrd.
  unfold Geometry.intersects_ll. fold rd.
  rewrite (proj2 (eqb_neq rd 0) Hrd), div_nonzero by exact Hrd.
  cbn [bind]. fold rd'. fold rn. fold sn.
  destruct (Num.ltb rn 0) eqn:E1; [apply ltb_lt in E1 | apply ltb_ge in E1];
  (destruct (Num.ltb 1 rn) eqn:E2; [apply ltb_lt in E2 | apply ltb_ge in E2]);
  (destruct (Num.ltb sn 0) eqn:E3; [apply ltb_lt in E3 | apply ltb_ge in E3]);
  (destruct (Num.ltb 1 sn) eqn:E4; [apply ltb_lt in E4 | apply ltb_ge in E4]);
  cbn [orb]; split; intros H; try reflexivity; exfalso; lra.
Qed.

(** C3.  The claim has [intersects(line, line)] return the crossing
    point, and the empty set exactly when the segments are parallel or a
    parameter is outside [[0, 1]].  The parameter [sn] of the second
    segment is computed with [l1.end.y - l2.start.y] in place of
    [l1.end.y - l1.start.y]:
    - the segments [(0,0)-(1,3)] and [(1,2)-(0,1)] are not parallel and
      cross at [(1/2, 3/2)], a point of both, and the code returns the
      empty set;
    - for [(3,0)-(3,2)] and [(0,1)-(2,1)] the code returns [(3,1)],
      which is not a point of the second segment.
    The scenario of the spec is unaffected: [(0,0)-(2,2)] and
    [(0,2)-(2,0)] give [(1,1)].  In the three runs the values held by
    [rd], [rn] and [sn] are binary32 numbers, which the conversion to
    [float] leaves unchanged. *)
Theorem intersects_ll_second_parameter (narrow : Q -> Q) :
  float_conversion narrow ->
  (on_segment (seg 0 0 1 3) (pt (1 # 2) (3 # 2))
   /\ on_segment (seg 1 2 0 1) (pt (1 # 2) (3 # 2))
   /\ ~ Vec2.cross (Line.vec (seg 0 0 1 3)) (Line.vec (seg 1 2 0 1)) == 0
   /\ Geometry.intersects_ll narrow (seg 0 0 1 3) (seg 1 2 0 1) = Ok [])
  /\ (exists p : vec2,
         Geometry.intersects_ll narrow (seg 3 0 3 2) (seg 0 1 2 1) = Ok [p]
         /\ p =v= pt 3 1
         /\ ~ on_segment (seg 0 1 2 1) p)
  /\ (exists p : vec2,
         Geometry.intersects_ll narrow (seg 0 0 2 2) (seg 0 2 2 0) = Ok [p]
         /\ p =v= pt 1 1).
Proof.
  intros Hn. pose proof (narrow_proper narrow Hn) as Hp.
  split; [| split].
  - split; [| split; [| split]].
    + exists (1 # 2). repeat split; discriminate || reflexivity.
    + exists (1 # 2). repeat split; discriminate || reflexivity.
    + discriminate.
    + apply (intersects_ll_value narrow (seg 0 0 1 3) (seg 1 2 0 1));
        cbv zeta; repeat narrow_step narrow Hn; vm_compute; intuition discriminate.
  - eexists. split; [| split].
    + apply (intersects_ll_value narrow (seg 3 0 3 2) (seg 0 1 2 1));
        cbv zeta; repeat narrow_step narrow Hn; vm_compute; intuition discriminate.
    + unfold Line.point, Vec2.eq, Vec2.add, Vec2.scale, Vec2.sub, seg, pt.
      cbn [Vec2.x Vec2.y Line.start Line.end_].
      repeat narrow_step narrow Hn. split; vm_compute; reflexivity.
    + intros (u & H0 & H1 & Hx & Hy).
      unfold Line.point, Vec2.add, Vec2.scale, Vec2.sub, seg, pt in Hx.
      cbn [Vec2.x Vec2.y Line.start Line.end_] in Hx. lra.
  - eexists. split.
    + apply (intersects_ll_value narrow (seg 0 0 2 2) (seg 0 2 2 0));
        cbv zeta; repeat narrow_step narrow Hn; vm_compute; intuition discriminate.
    + unfold Line.point, Vec2.eq, Vec2.add, Vec2.scale, Vec2.sub, seg, pt.
      cbn [Vec2.x Vec2.y Line.start Line.end_].
      repeat narrow_step narrow Hn. split; vm_compute; reflexivity.
Qed.

Lemma intersects_ll_second_parameter_witness :
  (on_segment (seg 0 0 1 3) (pt (1 # 2) (3 # 2))
   /\ on_segment (seg 1 2 0 1) (pt (1 # 2) (3 # 2))
   /\ ~ Vec2.cross (Line.vec (seg 0 0 1 3)) (Line.vec (seg 1 2 0 1)) == 0
   /\ Geometry.intersects_ll same_type (seg 0 0 1 3) (seg 1 2 0 1) = Ok [])
  /\ (exists p : vec2,
         Geometry.intersects_ll same_type (seg 3 0 3 2) (seg 0 1 2 1) = Ok [p]
         /\ p =v= pt 3 1
         /\ ~ on_segment (seg 0 1 2 1) p)
  /\ (exists p : vec2,
         Geometry.intersects_ll same_type (seg 0 0 2 2) (seg 0 2 2 0) = Ok [p]
         /\ p =v= pt 1 1).
Proof.
  apply (intersects_ll_second_parameter same_type).
  split; [intros a b H; exact H | intros q H; reflexivity].
Defined.

(** With the rounding to binary32 the returned point can leave the line
    through the second segment: for [(0,0)-(3,0)] against the vertical
    [(1,0)-(1,2)], [rd = 6], the inverse [1/6] is rounded, and the point
    returned has [x = 1 + 2 ^ -25], not [1]. *)
Lemma intersects_ll_rounded :
  exists p : vec2,
    Geometry.intersects_ll binary32 (seg 0 0 3 0) (seg 1 0 1 2) = Ok [p]
    /\ p =v= pt (33554433 # 33554432) 0.
Proof.
  eexists. split; [vm_compute; reflexivity |]. split; reflexivity.
Qed.

(** ** [intersects(rect, vec2)] *)

Lemma orelse_ok (a b : bool) : orelse (Ok a) (Ok b) = Ok (a || b).
Proof. destruct a; reflexivity. Qed.

Lemma div_pos_range (a w : Q) :
  0 < w -> (0 <= a / w <-> 0 <= a) /\ (a / w <= 1 <-> a <= w).
Proof.
  intros Hw.
  assert (E : a == a / w * w) by (field; lra).
  set (q := a / w) in *.
  repeat split; intros H; nra.
Qed.

(** [contains(line, vec2)] on a segment of nonzero length: defined, and
    true when the cross product is within [eps] and the projection
    parameter is in [[0, 1]]. *)
Lemma contains_lv_spec (l : line) (p : vec2) :
  ~ Line.length2 l == 0 ->
  exists b : bool,
    Geometry.contains_lv l p = Ok b
    /\ (b = true <->
        Qabs ((Vec2.x p - Vec2.x (Line.start l))
              * (Vec2.y (Line.end_ l) - Vec2.y (Line.start l))
              - (Vec2.y p - Vec2.y (Line.start l))
                * (Vec2.x (Line.end_ l) - Vec2.x (Line.start l))) < Num.eps
        /\ 0 <= Vec2.dot (Line.vec l) (Vec2.sub p (Line.start l))
                / Line.length2 l
        /\ Vec2.dot (Line.vec l) (Vec2.sub p (Line.start l))
           / Line.length2 l <= 1).
Proof.
  intros Hlen. unfold Geometry.contains_lv.
  rewrite div_nonzero by exact Hlen. simpl.
  destruct (Num.ltb _ Num.eps) eqn:E; eexists; (split; [reflexivity |]).
  - apply ltb_lt in E.
    rewrite andb_true_iff, geb_ge, leb_le. tauto.
  - apply ltb_ge in E. split; [discriminate |].
    intros (H & _). lra.
Qed.

(** An edge along the x axis, from [(a, b)] to [(a + w, b)]. *)
Lemma contains_lv_horizontal (a b a' w : Q) (p : vec2) :
  0 < w -> a' == a + w ->
  exists r : bool,
    Geometry.contains_lv (Line.mk (Vec2.mk a b) (Vec2.mk a' b)) p = Ok r
    /\ (r = true <->
        a <= Vec2.x p /\ Vec2.x p <= a + w /\ Qabs (Vec2.y p - b) * w < Num.eps).
Proof.
  intros Hw Ha'.
  set (l := Line.mk (Vec2.mk a b) (Vec2.mk a' b)).
  assert (Hlen : Line.length2 l == w * w)
    by (unfold Line.length2, Vec2.mag2, Vec2.sub; simpl; rewrite Ha'; ring).
  destruct (contains_lv_spec l p) as (r & Hr & Hiff).
  { rewrite Hlen. nra. }
  exists r. split; [exact Hr |]. rewrite Hiff. clear Hr Hiff.
  assert (Hd : (Vec2.x p - Vec2.x (Line.start l))
               * (Vec2.y (Line.end_ l) - Vec2.y (Line.start l))
               - (Vec2.y p - Vec2.y (Line.start l))
                 * (Vec2.x (Line.end_ l) - Vec2.x (Line.start l))
               == - ((Vec2.y p - b) * w))
    by (simpl; rewrite Ha'; ring).
  assert (Hu : Vec2.dot (Line.vec l) (Vec2.sub p (Line.start l))
               / Line.length2 l == (Vec2.x p - a) / w).
  { rewrite Hlen. unfold Vec2.dot, Line.vec, Vec2.sub. simpl.
    rewrite Ha'. field. lra. }
  rewrite Hd, Hu, Qabs_opp, Qabs_Qmult, (Qabs_pos w) by lra.
  destruct (div_pos_range (Vec2.x p - a) w Hw) as [-> ->].
  split; intros (H1 & H2 & H3); repeat split; try assumption; lra.
Qed.

(** An edge along the y axis, from [(a, b)] to [(a, b + h)]. *)
Lemma contains_lv_vertical (a b b' h : Q) (p : vec2) :
  0 < h -> b' == b + h ->
  exists r : bool,
    Geometry.contains_lv (Line.mk (Vec2.mk a b) (Vec2.mk a b')) p = Ok r
    /\ (r = true <->
        b <= Vec2.y p /\ Vec2.y p <= b + h /\ Qabs (Vec2.x p - a) * h < Num.eps).
Proof.
  intros Hh Hb'.
  set (l := Line.mk (Vec2.mk a b) (Vec2.mk a b')).
  assert (Hlen : Line.length2 l == h * h)
    by (unfold Line.length2, Vec2.mag2, Vec2.sub; simpl; rewrite Hb'; ring).
  destruct (contains_lv_spec l p) as (r & Hr & Hiff).
  { rewrite Hlen. nra. }
  exists r. split; [exact Hr |]. rewrite Hiff. clear Hr Hiff.
  assert (Hd : (Vec2.x p - Vec2.x (Line.start l))
               * (Vec2.y (Line.end_ l) - Vec2.y (Line.start l))
               - (Vec2.y p - Vec2.y (Line.start l))
                 * (Vec2.x (Line.end_ l) - Vec2.x (Line.start l))
               == (Vec2.x p - a) * h)
    by (simpl; rewrite Hb'; ring).
  assert (Hu : Vec2.dot (Line.vec l) (Vec2.sub p (Line.start l))
               / Line.length2 l == (Vec2.y p - b) / h).
  { rewrite Hlen. unfold Vec2.dot, Line.vec, Vec2.sub. simpl.
    rewrite Hb'. field. lra. }
  rewrite Hd, Hu, Qabs_Qmult, (Qabs_pos h) by lra.
  destruct (div_pos_range (Vec2.y p - b) h Hh) as [-> ->].
  split; intros (H1 & H2 & H3); repeat split; try assumption; lra.
Qed.

(** C10, counterexample.  The centre [(1,1)] of the rect at [(0,0)] of
    size [(2,2)] is contained in the rect, and [intersects] returns the
    empty set for it. *)
Lemma intersects_rv_interior_empty :
  Geometry.contains_rv (box 0 0 2 2) (pt 1 1) = true
  /\ Geometry.intersects_rv (box 0 0 2 2) (pt 1 1) = Ok []
  /\ Geometry.intersects_rv (box 0 0 2 2) (pt 1 1) <> Ok [pt 1 1].
Proof.
  split; [reflexivity | split; [vm_compute; reflexivity |]].
  vm_compute. discriminate.
Qed.

(** C10, amended.  For a rect with positive size, [intersects(r, p)]
    returns [{p}] when [p] lies on one of the four edges of [r] within
    the tolerance [eps] (the test [contains(edge, p)]), and the empty
    set for every other point, the points of the interior away from the
    edges included. *)
Theorem intersects_rv_edges (r : rect) (p : vec2) :
  0 < Vec2.x (Rect.size r) -> 0 < Vec2.y (Rect.size r) ->
  (near_edge r p -> Geometry.intersects_rv r p = Ok [p])
  /\ (~ near_edge r p -> Geometry.intersects_rv r p = Ok []).
Proof.
  destruct r as [[x0 y0] [w h]]. simpl. intros Hw Hh.
  unfold Geometry.intersects_rv, near_edge,
    Rect.top, Rect.bottom, Rect.left, Rect.right, Vec2.add. simpl.
  destruct (contains_lv_horizontal x0 y0 (x0 + w) w p Hw ltac:(reflexivity))
    as (bt & -> & Ht).
  destruct (contains_lv_horizontal x0 (y0 + h) (x0 + w) w p Hw ltac:(reflexivity))
    as (bb & -> & Hb).
  destruct (contains_lv_vertical x0 y0 (y0 + h) h p Hh ltac:(reflexivity))
    as (bl & -> & Hl).
  destruct (contains_lv_vertical (x0 + w) y0 (y0 + h) h p Hh ltac:(reflexivity))
    as (br & -> & Hr).
  rewrite !orelse_ok. simpl.
  destruct bt, bb, bl, br; simpl; split; intros H;
    try reflexivity; exfalso; intuition discriminate.
Qed.

Lemma intersects_rv_edges_witness :
  Geometry.intersects_rv (box 0 0 2 2) (pt 1 0) = Ok [pt 1 0].
Proof.
  apply (intersects_rv_edges (box 0 0 2 2) (pt 1 0)).
  - reflexivity.
  - reflexivity.
  - left. repeat split; try discriminate.
    left. reflexivity.
Defined.

(** A rect with a zero extent has edges of zero length, and the edge
    test divides by that length. *)
Lemma intersects_rv_degenerate :
  Geometry.intersects_rv (box 0 0 0 1) (pt 0 0) = DivByZero.
Proof. vm_compute. reflexivity. Qed.

(** * Further properties of the header *)

(** ** Point sets of the predicates *)

Lemma contains_rv_in_rect (r : rect) (p : vec2) :
  Geometry.contains_rv r p = true <-> in_rect r p.
Proof.
  unfold Geometry.contains_rv, in_rect.
  rewrite !andb_true_iff, !geb_ge, !leb_le. tauto.
Qed.

Lemma contains_cv_in_disc (c : circle) (p : vec2) :
  Geometry.contains_cv c p = true <-> in_disc c p.
Proof. unfold Geometry.contains_cv, in_disc, Circle.pos. apply ltb_lt. Qed.

Lemma sq_nonneg (a : Q) : 0 <= a * a.
Proof. nra. Qed.

Lemma mag2_nonneg (v : vec2) : 0 <= Vec2.mag2 v.
Proof.
  unfold Vec2.mag2.
  pose proof (sq_nonneg (Vec2.x v)). pose proof (sq_nonneg (Vec2.y v)). lra.
Qed.

Lemma mag2_eq (v w : vec2) : v =v= w -> Vec2.mag2 v == Vec2.mag2 w.
Proof. intros [Hx Hy]. unfold Vec2.mag2. now rewrite Hx, Hy. Qed.

Lemma sub_eq (p v w : vec2) : v =v= w -> Vec2.sub p v =v= Vec2.sub p w.
Proof. intros [Hx Hy]. split; simpl; [now rewrite Hx | now rewrite Hy]. Qed.

Lemma clamp_inside (v lo hi : Q) :
  lo <= v -> v <= hi -> Num.clamp v lo hi = v.
Proof.
  intros H1 H2.
  destruct (clamp_cases v lo hi) as [[H E] | [(Ha & Hb & E) | (Ha & Hb & E)]];
    [lra | lra | exact E].
Qed.

Lemma clamp_nearest (v lo hi q : Q) :
  lo <= q -> q <= hi ->
  (v - Num.clamp v lo hi) * (v - Num.clamp v lo hi) <= (v - q) * (v - q).
Proof.
  intros H1 H2.
  destruct (clamp_cases v lo hi) as [[H E] | [(Ha & Hb & E) | (Ha & Hb & E)]];
    rewrite E.
  - assert (0 <= (q - lo) * ((q - v) + (lo - v)))
      by (apply Qmult_le_0_compat; lra).
    lra.
  - assert (0 <= (hi - q) * ((v - q) + (v - hi)))
      by (apply Qmult_le_0_compat; lra).
    lra.
  - pose proof (sq_nonneg (v - q)). lra.
Qed.

(** ** [closest(rect, vec2)] *)

(** X1.  For a rect of nonnegative size, [closest(rect, vec2)] returns a
    point of the rect, and no point of the rect is nearer to [p]. *)
Theorem closest_rv_nearest (r : rect) (p : vec2) :
  0 <= Vec2.x (Rect.size r) -> 0 <= Vec2.y (Rect.size r) ->
  in_rect r (Geometry.closest_rv r p)
  /\ forall q : vec2,
       in_rect r q ->
       Vec2.mag2 (Vec2.sub p (Geometry.closest_rv r p))
       <= Vec2.mag2 (Vec2.sub p q).
Proof.
  intros Hw Hh. split.
  - unfold in_rect, Geometry.closest_rv. simpl.
    pose proof (clamp_bounds (Vec2.x p) (Vec2.x (Rect.pos r))
      (Vec2.x (Rect.pos r) + Vec2.x (Rect.size r)) ltac:(lra)).
    pose proof (clamp_bounds (Vec2.y p) (Vec2.y (Rect.pos r))
      (Vec2.y (Rect.pos r) + Vec2.y (Rect.size r)) ltac:(lra)).
    tauto.
  - intros q (Hx1 & Hy1 & Hx2 & Hy2).
    unfold Vec2.mag2, Vec2.sub, Geometry.closest_rv. simpl.
    pose proof (clamp_nearest (Vec2.x p) _ _ (Vec2.x q) Hx1 Hx2).
    pose proof (clamp_nearest (Vec2.y p) _ _ (Vec2.y q) Hy1 Hy2).
    lra.
Qed.

Lemma closest_rv_nearest_witness :
  in_rect (box 0 0 2 2) (Geometry.closest_rv (box 0 0 2 2) (pt 5 1)).
Proof.
  apply (closest_rv_nearest (box 0 0 2 2) (pt 5 1)); discriminate.
Defined.

(** X2.  For a rect of nonnegative size, [closest(rect, vec2)] returns
    its argument unchanged exactly when the rect contains it. *)
Theorem closest_rv_fixed_iff_contained (r : rect) (p : vec2) :
  0 <= Vec2.x (Rect.size r) -> 0 <= Vec2.y (Rect.size r) ->
  (Geometry.closest_rv r p = p <-> Geometry.contains_rv r p = true).
Proof.
  intros Hw Hh. rewrite contains_rv_in_rect. split.
  - intros E. unfold in_rect. rewrite <- E at 1 2 3 4.
    unfold Geometry.closest_rv. simpl.
    pose proof (clamp_bounds (Vec2.x p) (Vec2.x (Rect.pos r))
      (Vec2.x (Rect.pos r) + Vec2.x (Rect.size r)) ltac:(lra)).
    pose proof (clamp_bounds (Vec2.y p) (Vec2.y (Rect.pos r))
      (Vec2.y (Rect.pos r) + Vec2.y (Rect.size r)) ltac:(lra)).
    tauto.
  - intros (Hx1 & Hy1 & Hx2 & Hy2). unfold Geometry.closest_rv.
    rewrite !clamp_inside by assumption. now destruct p.
Qed.

Lemma closest_rv_fixed_iff_contained_witness :
  Geometry.closest_rv (box 0 0 2 2) (pt 1 1) = pt 1 1
  <-> Geometry.contains_rv (box 0 0 2 2) (pt 1 1) = true.
Proof.
  apply (closest_rv_fixed_iff_contained (box 0 0 2 2) (pt 1 1)); discriminate.
Defined.

(** ** [closest(line, vec2)] *)

Lemma length2_nonneg (l : line) : 0 <= Line.length2 l.
Proof. apply mag2_nonneg. Qed.

(** The squared distance from [p] to the point of parameter [k]:
    a quadratic in [k] with its vertex at the projection parameter. *)
Lemma dist2_to_point (l : line) (p : vec2) (k : Q) :
  Vec2.mag2 (Vec2.sub p (Line.point l k))
  == Vec2.mag2 (Vec2.sub p (Line.start l))
     - 2 * k * Vec2.dot (Line.vec l) (Vec2.sub p (Line.start l))
     + k * k * Line.length2 l.
Proof.
  unfold Vec2.mag2, Vec2.sub, Line.point, Vec2.dot, Line.vec, Line.length2,
    Vec2.add, Vec2.scale, Vec2.mag2, Vec2.sub.
  simpl. ring.
Qed.

(** The parameter chosen by [closest(line, vec2)] is at least as near
    to [p] as any other parameter of [[0, 1]]. *)
Lemma clamped_parameter_nearest (l : line) (p : vec2) (k : Q) :
  ~ Line.length2 l == 0 -> 0 <= k -> k <= 1 ->
  Vec2.mag2
    (Vec2.sub p
       (Line.point l
          (Num.clamp (Vec2.dot (Line.vec l) (Vec2.sub p (Line.start l))
                      / Line.length2 l) 0 1)))
  <= Vec2.mag2 (Vec2.sub p (Line.point l k)).
Proof.
  intros Hlen Hk0 Hk1.
  pose proof (length2_nonneg l) as Hnn.
  set (u := Vec2.dot (Line.vec l) (Vec2.sub p (Line.start l)) / Line.length2 l).
  rewrite !dist2_to_point.
  assert (Hu : Vec2.dot (Line.vec l) (Vec2.sub p (Line.start l))
               == u * Line.length2 l)
    by (unfold u; field; exact Hlen).
  rewrite Hu.
  pose proof (clamp_nearest u 0 1 k Hk0 Hk1) as Hn.
  set (c := Num.clamp u 0 1) in *. set (L := Line.length2 l) in *.
  assert (HL : 0 <= L * ((u - k) * (u - k) - (u - c) * (u - c)))
    by (apply Qmult_le_0_compat; lra).
  lra.
Qed.

(** X3.  For a segment of nonzero length, [closest(line, vec2)] returns
    a point of the segment, and no point of the segment is nearer to
    [p]. *)
Theorem closest_lv_nearest (l : line) (p : vec2) :
  ~ Line.length2 l == 0 ->
  exists c : vec2,
    Geometry.closest_lv l p = Ok c
    /\ on_segment l c
    /\ forall q : vec2,
         on_segment l q ->
         Vec2.mag2 (Vec2.sub p c) <= Vec2.mag2 (Vec2.sub p q).
Proof.
  intros Hlen.
  pose proof (length2_nonneg l) as Hnn.
  set (u := Vec2.dot (Line.vec l) (Vec2.sub p (Line.start l)) / Line.length2 l).
  exists (Line.point l (Num.clamp u 0 1)).
  destruct (clamp_bounds u 0 1 ltac:(lra)) as [H0 H1].
  split; [| split].
  - unfold Geometry.closest_lv. rewrite div_nonzero by exact Hlen. reflexivity.
  - exists (Num.clamp u 0 1). repeat split; try assumption; reflexivity.
  - intros q (k & Hk0 & Hk1 & Hq).
    rewrite (mag2_eq _ _ (sub_eq p _ _ Hq)).
    apply clamped_parameter_nearest; assumption.
Qed.

Lemma closest_lv_nearest_witness :
  exists c : vec2,
    Geometry.closest_lv (seg 0 0 10 0) (pt 5 5) = Ok c
    /\ on_segment (seg 0 0 10 0) c.
Proof.
  destruct (closest_lv_nearest (seg 0 0 10 0) (pt 5 5)) as (c & Hc & Hon & _).
  - discriminate.
  - exists c. auto.
Defined.

Lemma length2_zero_iff (l : line) :
  Line.length2 l == 0 <-> Line.start l =v= Line.end_ l.
Proof.
  unfold Line.length2, Vec2.mag2, Vec2.sub, Vec2.eq. simpl.
  set (a := Vec2.x (Line.end_ l) - Vec2.x (Line.start l)).
  set (b := Vec2.y (Line.end_ l) - Vec2.y (Line.start l)).
  pose proof (sq_nonneg a) as Ha. pose proof (sq_nonneg b) as Hb.
  split.
  - intros H.
    assert (Ha0 : a * a == 0) by lra. assert (Hb0 : b * b == 0) by lra.
    apply Qmult_integral in Ha0. apply Qmult_integral in Hb0.
    unfold a, b in *. split; lra.
  - intros [Hx Hy].
    assert (Ea : a == 0) by (unfold a; lra).
    assert (Eb : b == 0) by (unfold b; lra).
    rewrite Ea, Eb. ring.
Qed.

(** X4.  [closest(line, vec2)] divides by the squared length of the
    segment: it divides by zero exactly when the two end points of the
    segment coincide, whatever the point [p]. *)
Theorem closest_lv_fails_iff_degenerate (l : line) (p : vec2) :
  Geometry.closest_lv l p = DivByZero <-> Line.start l =v= Line.end_ l.
Proof.
  rewrite <- length2_zero_iff. unfold Geometry.closest_lv, Num.div.
  destruct (Num.eqb (Line.length2 l) 0) eqn:E.
  - apply eqb_eq in E. simpl. tauto.
  - apply eqb_neq in E. simpl. split; [discriminate | tauto].
Qed.

(** ** [contains(line, vec2)] *)

(** X5.  On a segment of nonzero length [contains(line, vec2)] is true of
    every point of the segment, the two end points included. *)
Theorem contains_lv_on_segment (l : line) (p : vec2) :
  ~ Line.length2 l == 0 ->
  on_segment l p ->
  Geometry.contains_lv l p = Ok true.
Proof.
  intros Hlen (k & Hk0 & Hk1 & Hx & Hy).
  destruct (contains_lv_spec l p Hlen) as (b & Hb & Hiff).
  rewrite Hb. f_equal. apply Hiff. clear Hb Hiff.
  unfold Line.point, Vec2.add, Vec2.scale, Vec2.sub in Hx, Hy.
  simpl in Hx, Hy.
  assert (Hd : (Vec2.x p - Vec2.x (Line.start l))
               * (Vec2.y (Line.end_ l) - Vec2.y (Line.start l))
               - (Vec2.y p - Vec2.y (Line.start l))
                 * (Vec2.x (Line.end_ l) - Vec2.x (Line.start l)) == 0)
    by (rewrite Hx, Hy; ring).
  assert (Hu : Vec2.dot (Line.vec l) (Vec2.sub p (Line.start l))
               / Line.length2 l == k).
  { unfold Line.length2, Vec2.mag2, Vec2.dot, Line.vec, Vec2.sub in *.
    simpl in *. rewrite Hx, Hy. field. exact Hlen. }
  rewrite Hd, Hu. split; [reflexivity | split; assumption].
Qed.

Lemma contains_lv_on_segment_witness :
  Geometry.contains_lv (seg 0 0 4 2) (pt 2 1) = Ok true.
Proof.
  apply (contains_lv_on_segment (seg 0 0 4 2) (pt 2 1)).
  - discriminate.
  - exists (1 # 2). repeat split; discriminate || reflexivity.
Defined.

(** X6.  [contains(line, vec2)] divides by zero exactly when the two end
    points of the segment coincide: on such a segment the cross product
    is zero for every point, so the division by the squared length is
    always reached; [intersects(line, vec2)] and [overlaps] of a line
    and a point fail with it. *)
Theorem contains_lv_fails_iff_degenerate (l : line) (p : vec2) :
  (Geometry.contains_lv l p = DivByZero <-> Line.start l =v= Line.end_ l)
  /\ (Geometry.intersects_lv l p = DivByZero <-> Line.start l =v= Line.end_ l)
  /\ (Geometry.overlaps_vl p l = DivByZero <-> Line.start l =v= Line.end_ l).
Proof.
  assert (H : Geometry.contains_lv l p = DivByZero
              <-> Line.start l =v= Line.end_ l).
  { rewrite <- length2_zero_iff. split.
    - intros E. destruct (Qeq_dec (Line.length2 l) 0) as [Hz | Hnz]; [exact Hz |].
      destruct (contains_lv_spec l p Hnz) as (b & Hb & _). congruence.
    - intros Hz. pose proof (proj1 (length2_zero_iff l) Hz) as [Hx Hy].
      unfold Geometry.contains_lv.
      assert (Hd : (Vec2.x p - Vec2.x (Line.start l))
                   * (Vec2.y (Line.end_ l) - Vec2.y (Line.start l))
                   - (Vec2.y p - Vec2.y (Line.start l))
                     * (Vec2.x (Line.end_ l) - Vec2.x (Line.start l)) == 0)
        by (rewrite Hx, Hy; ring).
      rewrite Hd. change (Num.ltb (Qabs 0) Num.eps) with true. cbv iota.
      now rewrite div_zero. }
  split; [exact H | split].
  - rewrite <- H. unfold Geometry.intersects_lv.
    destruct (Geometry.contains_lv l p); simpl; split; congruence.
  - exact H.
Qed.

(** ** What [contains] promises about points *)

Lemma contains_rl_endpoints (r : rect) (l : line) :
  Geometry.contains_rl r l = true
  <-> in_rect r (Line.start l) /\ in_rect r (Line.end_ l).
Proof.
  unfold Geometry.contains_rl.
  now rewrite andb_true_iff, !contains_rv_in_rect.
Qed.

Lemma between (lo s e k : Q) :
  lo <= s -> lo <= e -> 0 <= k -> k <= 1 -> lo <= s + k * (e - s).
Proof.
  intros Hs He H0 H1.
  assert (0 <= k * (e - lo)) by (apply Qmult_le_0_compat; lra).
  assert (0 <= (1 - k) * (s - lo)) by (apply Qmult_le_0_compat; lra).
  lra.
Qed.

Lemma between_le (hi s e k : Q) :
  s <= hi -> e <= hi -> 0 <= k -> k <= 1 -> s + k * (e - s) <= hi.
Proof.
  intros Hs He H0 H1.
  assert (0 <= k * (hi - e)) by (apply Qmult_le_0_compat; lra).
  assert (0 <= (1 - k) * (hi - s)) by (apply Qmult_le_0_compat; lra).
  lra.
Qed.

Lemma segment_in_rect (r : rect) (l : line) (p : vec2) :
  in_rect r (Line.start l) -> in_rect r (Line.end_ l) ->
  on_segment l p -> in_rect r p.
Proof.
  intros (Sx1 & Sy1 & Sx2 & Sy2) (Ex1 & Ey1 & Ex2 & Ey2)
         (k & Hk0 & Hk1 & Hx & Hy).
  unfold Line.point, Vec2.add, Vec2.scale, Vec2.sub in Hx, Hy.
  simpl in Hx, Hy. unfold in_rect. rewrite Hx, Hy.
  repeat split; first [apply between | apply between_le]; assumption.
Qed.

(** X7.  When [contains(rect, line)] holds, every point of the segment
    lies in the rect, not only its two end points. *)
Theorem contains_rl_sound (r : rect) (l : line) (p : vec2) :
  Geometry.contains_rl r l = true ->
  on_segment l p ->
  Geometry.contains_rv r p = true.
Proof.
  rewrite contains_rl_endpoints, contains_rv_in_rect.
  intros [Hs He] Hon. exact (segment_in_rect r l p Hs He Hon).
Qed.

Lemma contains_rl_sound_witness :
  Geometry.contains_rv (box 0 0 4 4) (pt 2 (5 # 2)) = true.
Proof.
  apply (contains_rl_sound (box 0 0 4 4) (seg 1 2 3 3) (pt 2 (5 # 2))).
  - reflexivity.
  - exists (1 # 2). repeat split; discriminate || reflexivity.
Defined.

(** X8.  When [contains(circle, line)] holds, every point of the segment
    lies in the open disc of the circle. *)
Theorem contains_cl_sound (c : circle) (l : line) (p : vec2) :
  Geometry.contains_cl c l = true ->
  on_segment l p ->
  Geometry.contains_cv c p = true.
Proof.
  unfold Geometry.contains_cl.
  rewrite andb_true_iff, !contains_cv_in_disc. unfold in_disc.
  intros [Hs He] (k & Hk0 & Hk1 & Hp).
  rewrite (mag2_eq _ _ (sub_eq _ _ _ Hp)), dist2_to_point.
  assert (E1 : Vec2.mag2 (Vec2.sub (Circle.center c) (Line.end_ l))
               == Vec2.mag2 (Vec2.sub (Circle.center c) (Line.start l))
                  - 2 * Vec2.dot (Line.vec l)
                                 (Vec2.sub (Circle.center c) (Line.start l))
                  + Line.length2 l).
  { unfold Vec2.mag2, Vec2.sub, Vec2.dot, Line.vec, Line.length2,
      Vec2.mag2, Vec2.sub. simpl. ring. }
  pose proof (length2_nonneg l) as HL.
  set (f0 := Vec2.mag2 (Vec2.sub (Circle.center c) (Line.start l))) in *.
  set (f1 := Vec2.mag2 (Vec2.sub (Circle.center c) (Line.end_ l))) in *.
  set (D := Vec2.dot (Line.vec l) (Vec2.sub (Circle.center c) (Line.start l)))
    in *.
  set (L := Line.length2 l) in *.
  set (R := Circle.radius c * Circle.radius c) in *.
  assert (H1 : 0 <= (1 - k) * (R - f0)) by (apply Qmult_le_0_compat; lra).
  assert (H2 : 0 <= k * (R - f1)) by (apply Qmult_le_0_compat; lra).
  assert (H3 : 0 <= k * (1 - k) * L)
    by (repeat apply Qmult_le_0_compat; lra).
  assert (Ek : k * f1 == k * (f0 - 2 * D + L)) by (rewrite E1; reflexivity).
  destruct (Qlt_le_dec f0 f1) as [Hlt | Hle].
  - assert (0 <= (1 - k) * (f1 - f0)) by (apply Qmult_le_0_compat; lra). lra.
  - assert (0 <= k * (f0 - f1)) by (apply Qmult_le_0_compat; lra). lra.
Qed.

Lemma contains_cl_sound_witness :
  Geometry.contains_cv (disc 0 0 3) (pt 0 1) = true.
Proof.
  apply (contains_cl_sound (disc 0 0 3) (seg (-1) 1 1 1) (pt 0 1)).
  - reflexivity.
  - exists (1 # 2). repeat split; discriminate || reflexivity.
Defined.

(** X9.  When [contains(rect, rect)] holds, every point contained in the
    second rect is contained in the first. *)
Theorem contains_rr_sound (r1 r2 : rect) (p : vec2) :
  Geometry.contains_rr r1 r2 = true ->
  Geometry.contains_rv r2 p = true ->
  Geometry.contains_rv r1 p = true.
Proof.
  unfold Geometry.contains_rr.
  rewrite !andb_true_iff, !geb_ge, !ltb_lt, !contains_rv_in_rect.
  unfold in_rect. intros H1 H2. repeat split; lra.
Qed.

Lemma contains_rr_sound_witness :
  Geometry.contains_rv (box 0 0 4 4) (pt 2 2) = true.
Proof.
  apply (contains_rr_sound (box 0 0 4 4) (box 1 1 2 2) (pt 2 2)); reflexivity.
Defined.

Lemma sq_le_bound (a b : Q) : - b <= a -> a <= b -> a * a <= b * b.
Proof.
  intros H1 H2.
  assert (0 <= (b - a) * (b + a)) by (apply Qmult_le_0_compat; lra).
  lra.
Qed.

(** On an interval the point farthest from [c] is an end of it. *)
Lemma far_end (c lo hi v : Q) :
  lo <= v -> v <= hi ->
  (c - v) * (c - v) <= (c - lo) * (c - lo)
  \/ (c - v) * (c - v) <= (c - hi) * (c - hi).
Proof.
  intros H1 H2.
  destruct (Qlt_le_dec (2 * c) (lo + hi)) as [Hc | Hc].
  - right.
    setoid_replace ((c - hi) * (c - hi)) with ((hi - c) * (hi - c)) by ring.
    apply sq_le_bound; lra.
  - left. apply sq_le_bound; lra.
Qed.

(** X10.  When [contains(circle, rect)] holds, every point contained in
    the rect lies in the open disc of the circle, not only the four
    corners that are tested. *)
Theorem contains_cr_sound (c : circle) (r : rect) (p : vec2) :
  Geometry.contains_cr c r = true ->
  Geometry.contains_rv r p = true ->
  Geometry.contains_cv c p = true.
Proof.
  unfold Geometry.contains_cr.
  rewrite !andb_true_iff, !contains_cv_in_disc, contains_rv_in_rect.
  unfold in_disc, in_rect, Vec2.mag2, Vec2.sub, Vec2.add. simpl.
  intros [[[H00 H10] H01] H11] (Hx1 & Hy1 & Hx2 & Hy2).
  destruct (far_end (Vec2.x (Circle.center c)) _ _ (Vec2.x p) Hx1 Hx2)
    as [Fx | Fx];
  destruct (far_end (Vec2.y (Circle.center c)) _ _ (Vec2.y p) Hy1 Hy2)
    as [Fy | Fy];
  lra.
Qed.

Lemma contains_cr_sound_witness :
  Geometry.contains_cv (disc 1 1 2) (pt 1 (3 # 2)) = true.
Proof.
  apply (contains_cr_sound (disc 1 1 2) (box 0 0 2 2) (pt 1 (3 # 2)));
    reflexivity.
Defined.

Lemma lagrange_identity (v w : vec2) :
  Vec2.dot v w * Vec2.dot v w + Vec2.cross v w * Vec2.cross v w
  == Vec2.mag2 v * Vec2.mag2 w.
Proof. unfold Vec2.dot, Vec2.cross, Vec2.mag2. ring. Qed.

(** A product bounded through the squares: Cauchy and Schwarz without a
    square root. *)
Lemma dot_le_of_squares (v w : vec2) (a b : Q) :
  0 <= a -> 0 <= b ->
  Vec2.mag2 v <= a * a -> Vec2.mag2 w <= b * b ->
  Vec2.dot v w <= a * b.
Proof.
  intros Ha Hb Hv Hw.
  pose proof (lagrange_identity v w) as HL.
  pose proof (sq_nonneg (Vec2.cross v w)) as Hc.
  pose proof (mag2_nonneg v) as Hv0. pose proof (mag2_nonneg w) as Hw0.
  assert (H1 : 0 <= (a * a - Vec2.mag2 v) * (b * b))
    by (apply Qmult_le_0_compat; [lra | apply sq_nonneg]).
  assert (H2 : 0 <= Vec2.mag2 v * (b * b - Vec2.mag2 w))
    by (apply Qmult_le_0_compat; lra).
  assert (Hab : 0 <= a * b) by (apply Qmult_le_0_compat; assumption).
  destruct (Qlt_le_dec (a * b) (Vec2.dot v w)) as [Hgt | Hle]; [| exact Hle].
  exfalso.
  assert (H3 : 0 < (Vec2.dot v w - a * b) * (Vec2.dot v w + a * b))
    by (apply Qmult_lt_0_compat; lra).
  lra.
Qed.

(** X11.  When [contains(circle, circle)] holds and the second radius is
    between zero and the first, every point of the open disc of the
    second circle is in the open disc of the first. *)
Theorem contains_cc_sound (c1 c2 : circle) (p : vec2) :
  0 <= Circle.radius c2 -> Circle.radius c2 <= Circle.radius c1 ->
  Geometry.contains_cc c1 c2 = true ->
  Geometry.contains_cv c2 p = true ->
  Geometry.contains_cv c1 p = true.
Proof.
  intros Hr2 Hr12. unfold Geometry.contains_cc, Circle.pos.
  rewrite leb_le, !contains_cv_in_disc. unfold in_disc.
  intros Hc Hp.
  set (v := Vec2.sub (Circle.center c1) (Circle.center c2)) in *.
  set (w := Vec2.sub (Circle.center c2) p) in *.
  assert (E : Vec2.mag2 (Vec2.sub (Circle.center c1) p)
              == Vec2.mag2 v + 2 * Vec2.dot v w + Vec2.mag2 w)
    by (unfold v, w, Vec2.mag2, Vec2.dot, Vec2.sub; simpl; ring).
  pose proof (dot_le_of_squares v w
    (Circle.radius c1 - Circle.radius c2) (Circle.radius c2)
    ltac:(lra) Hr2 Hc ltac:(lra)) as Hd.
  rewrite E. lra.
Qed.

Lemma contains_cc_sound_witness :
  Geometry.contains_cv (disc 0 0 3) (pt 1 1) = true.
Proof.
  apply (contains_cc_sound (disc 0 0 3) (disc 1 0 2) (pt 1 1));
    discriminate || reflexivity.
Defined.

(** X12.  [contains(circle, circle)] compares the squared distance of the
    centres with the square of the difference of the radii, so it does
    not tell which circle is the larger: it gives the same answer with
    its arguments exchanged, and a circle is reported to contain every
    larger circle with the same centre. *)
Theorem contains_cc_unordered :
  (forall c1 c2 : circle,
      Geometry.contains_cc c1 c2 = Geometry.contains_cc c2 c1)
  /\ (forall (o : vec2) (r1 r2 : Q),
         Geometry.contains_cc (Circle.mk o r1) (Circle.mk o r2) = true).
Proof.
  split.
  - intros c1 c2. unfold Geometry.contains_cc.
    rewrite mag2_sub_sym. apply leb_proper; [reflexivity | ring].
  - intros o r1 r2. unfold Geometry.contains_cc, Circle.pos. simpl.
    apply leb_le.
    setoid_replace (Vec2.mag2 (Vec2.sub o o)) with 0
      by (unfold Vec2.mag2, Vec2.sub; simpl; ring).
    apply sq_nonneg.
Qed.

(** ** What [overlaps] decides *)

Lemma overlaps_cr_lt (c : circle) (r : rect) :
  Geometry.overlaps_cr c r = true
  <-> Vec2.mag2 (Vec2.sub (Geometry.closest_rv r (Circle.center c))
                          (Circle.center c))
      < Circle.radius c * Circle.radius c.
Proof.
  unfold Geometry.overlaps_cr, Geometry.closest_rv, Circle.pos.
  rewrite ltb_lt. split; intros H; lra.
Qed.

Lemma overlaps_cr_of_common_point (c : circle) (r : rect) (p : vec2) :
  in_rect r p -> in_disc c p -> Geometry.overlaps_cr c r = true.
Proof.
  intros (Hx1 & Hy1 & Hx2 & Hy2) Hd. apply overlaps_cr_lt.
  unfold in_disc in Hd.
  unfold Vec2.mag2, Vec2.sub, Geometry.closest_rv in *. simpl in *.
  pose proof (clamp_nearest (Vec2.x (Circle.center c)) _ _ (Vec2.x p) Hx1 Hx2).
  pose proof (clamp_nearest (Vec2.y (Circle.center c)) _ _ (Vec2.y p) Hy1 Hy2).
  lra.
Qed.

(** X13.  For a rect of nonnegative size, [overlaps(circle, rect)] is true
    exactly when some point of the rect lies in the open disc of the
    circle. *)
Theorem overlaps_cr_iff_common_point (c : circle) (r : rect) :
  0 <= Vec2.x (Rect.size r) -> 0 <= Vec2.y (Rect.size r) ->
  (Geometry.overlaps_cr c r = true
   <-> exists p : vec2,
         Geometry.contains_rv r p = true /\ Geometry.contains_cv c p = true).
Proof.
  intros Hw Hh. split.
  - intros H. apply overlaps_cr_lt in H.
    exists (Geometry.closest_rv r (Circle.center c)).
    rewrite contains_rv_in_rect, contains_cv_in_disc. split.
    + unfold in_rect, Geometry.closest_rv. simpl.
      pose proof (clamp_bounds (Vec2.x (Circle.center c)) (Vec2.x (Rect.pos r))
        (Vec2.x (Rect.pos r) + Vec2.x (Rect.size r)) ltac:(lra)).
      pose proof (clamp_bounds (Vec2.y (Circle.center c)) (Vec2.y (Rect.pos r))
        (Vec2.y (Rect.pos r) + Vec2.y (Rect.size r)) ltac:(lra)).
      tauto.
    + unfold in_disc. now rewrite mag2_sub_sym.
  - intros (p & Hr & Hc).
    apply contains_rv_in_rect in Hr. apply contains_cv_in_disc in Hc.
    exact (overlaps_cr_of_common_point c r p Hr Hc).
Qed.

Lemma overlaps_cr_iff_common_point_witness :
  Geometry.overlaps_cr (disc 3 1 2) (box 0 0 2 2) = true
  <-> exists p : vec2,
        Geometry.contains_rv (box 0 0 2 2) p = true
        /\ Geometry.contains_cv (disc 3 1 2) p = true.
Proof.
  apply (overlaps_cr_iff_common_point (disc 3 1 2) (box 0 0 2 2)); discriminate.
Defined.

Lemma overlaps_cl_lt (c : circle) (l : line) :
  ~ Line.length2 l == 0 ->
  exists b : bool,
    Geometry.overlaps_cl c l = Ok b
    /\ (b = true <->
        Vec2.mag2
          (Vec2.sub (Circle.center c)
             (Line.point l
                (Num.clamp
                   (Vec2.dot (Line.vec l)
                      (Vec2.sub (Circle.center c) (Line.start l))
                    / Line.length2 l) 0 1)))
        < Circle.radius c * Circle.radius c).
Proof.
  intros Hlen. unfold Geometry.overlaps_cl, Geometry.closest_lv, Circle.pos.
  rewrite div_nonzero by exact Hlen. cbn [bind].
  eexists. split; [reflexivity |]. apply ltb_lt.
Qed.

Lemma overlaps_cl_of_common_point (c : circle) (l : line) (p : vec2) :
  ~ Line.length2 l == 0 ->
  on_segment l p -> in_disc c p -> Geometry.overlaps_cl c l = Ok true.
Proof.
  intros Hlen (k & Hk0 & Hk1 & Hp) Hd.
  destruct (overlaps_cl_lt c l Hlen) as (b & -> & Hiff).
  f_equal. apply Hiff.
  unfold in_disc in Hd. rewrite (mag2_eq _ _ (sub_eq _ _ _ Hp)) in Hd.
  eapply Qle_lt_trans; [| exact Hd].
  apply clamped_parameter_nearest; assumption.
Qed.

(** X14.  For a segment of nonzero length, [overlaps(circle, line)] is
    defined, and true exactly when some point of the segment lies in the
    open disc of the circle. *)
Theorem overlaps_cl_iff_common_point (c : circle) (l : line) :
  ~ Line.length2 l == 0 ->
  (exists b : bool, Geometry.overlaps_cl c l = Ok b)
  /\ (Geometry.overlaps_cl c l = Ok true
      <-> exists p : vec2, on_segment l p /\ Geometry.contains_cv c p = true).
Proof.
  intros Hlen.
  destruct (overlaps_cl_lt c l Hlen) as (b & Hb & Hiff).
  split; [eauto |]. split.
  - intros E. rewrite Hb in E. injection E as ->.
    set (u := Vec2.dot (Line.vec l) (Vec2.sub (Circle.center c) (Line.start l))
              / Line.length2 l) in *.
    exists (Line.point l (Num.clamp u 0 1)). split.
    + exists (Num.clamp u 0 1).
      destruct (clamp_bounds u 0 1 ltac:(lra)) as [H0 H1].
      repeat split; try assumption; reflexivity.
    + apply contains_cv_in_disc. apply Hiff. reflexivity.
  - intros (p & Hon & Hc). apply contains_cv_in_disc in Hc.
    exact (overlaps_cl_of_common_point c l p Hlen Hon Hc).
Qed.

Lemma overlaps_cl_iff_common_point_witness :
  exists b : bool, Geometry.overlaps_cl (disc 0 0 2) (seg (-3) 1 3 1) = Ok b.
Proof.
  apply (overlaps_cl_iff_common_point (disc 0 0 2) (seg (-3) 1 3 1)).
  discriminate.
Defined.

Lemma overlaps_rr_iff (r1 r2 : rect) :
  Geometry.overlaps_rr r1 r2 = true
  <-> Vec2.x (Rect.pos r1) < Vec2.x (Rect.pos r2) + Vec2.x (Rect.size r2)
      /\ Vec2.x (Rect.pos r2) <= Vec2.x (Rect.pos r1) + Vec2.x (Rect.size r1)
      /\ Vec2.y (Rect.pos r1) < Vec2.y (Rect.pos r2) + Vec2.y (Rect.size r2)
      /\ Vec2.y (Rect.pos r2) <= Vec2.y (Rect.pos r1) + Vec2.y (Rect.size r1).
Proof.
  unfold Geometry.overlaps_rr.
  rewrite !andb_true_iff, !geb_ge, !ltb_lt. tauto.
Qed.

(** Two intervals that meet have the larger of their lower ends in
    common. *)
Lemma common_coordinate (a wa b wb : Q) :
  0 <= wa -> 0 <= wb -> a <= b + wb -> b <= a + wa ->
  exists v : Q, a <= v /\ v <= a + wa /\ b <= v /\ v <= b + wb.
Proof.
  intros Ha Hb H1 H2.
  destruct (Qlt_le_dec a b) as [Hlt | Hle].
  - exists b. repeat split; lra.
  - exists a. repeat split; lra.
Qed.

(** X15.  For rects of nonnegative size, when [overlaps(rect, rect)]
    holds the two rects have a point in common. *)
Theorem overlaps_rr_sound (r1 r2 : rect) :
  0 <= Vec2.x (Rect.size r1) -> 0 <= Vec2.y (Rect.size r1) ->
  0 <= Vec2.x (Rect.size r2) -> 0 <= Vec2.y (Rect.size r2) ->
  Geometry.overlaps_rr r1 r2 = true ->
  exists p : vec2,
    Geometry.contains_rv r1 p = true /\ Geometry.contains_rv r2 p = true.
Proof.
  intros Hw1 Hh1 Hw2 Hh2 H. apply overlaps_rr_iff in H.
  destruct H as (X1 & X2 & Y1 & Y2).
  destruct (common_coordinate (Vec2.x (Rect.pos r1)) (Vec2.x (Rect.size r1))
              (Vec2.x (Rect.pos r2)) (Vec2.x (Rect.size r2)))
    as (vx & ? & ? & ? & ?); try lra.
  destruct (common_coordinate (Vec2.y (Rect.pos r1)) (Vec2.y (Rect.size r1))
              (Vec2.y (Rect.pos r2)) (Vec2.y (Rect.size r2)))
    as (vy & ? & ? & ? & ?); try lra.
  exists (Vec2.mk vx vy).
  rewrite !contains_rv_in_rect. unfold in_rect. simpl. tauto.
Qed.

Lemma overlaps_rr_sound_witness :
  exists p : vec2,
    Geometry.contains_rv (box 0 0 4 4) p = true
    /\ Geometry.contains_rv (box 2 2 4 4) p = true.
Proof.
  apply (overlaps_rr_sound (box 0 0 4 4) (box 2 2 4 4));
    discriminate || reflexivity.
Defined.

(** X16.  A rect overlaps itself exactly when both its extents are
    positive: a rect with a zero (or negative) extent does not overlap
    itself. *)
Theorem overlaps_rr_self (r : rect) :
  Geometry.overlaps_rr r r = true
  <-> 0 < Vec2.x (Rect.size r) /\ 0 < Vec2.y (Rect.size r).
Proof.
  rewrite overlaps_rr_iff. split.
  - intros (X1 & X2 & Y1 & Y2). split; lra.
  - intros [Hw Hh]. repeat split; lra.
Qed.

Lemma contains_cl_overlaps_cl (c : circle) (l : line) :
  ~ Line.length2 l == 0 ->
  Geometry.contains_cl c l = true -> Geometry.overlaps_cl c l = Ok true.
Proof.
  intros Hlen H. unfold Geometry.contains_cl in H.
  apply andb_true_iff in H as [Hs _]. apply contains_cv_in_disc in Hs.
  apply (overlaps_cl_of_common_point c l (Line.start l) Hlen); [| exact Hs].
  exists 0. repeat split; try discriminate;
    unfold Line.point, Vec2.add, Vec2.scale; simpl; ring.
Qed.

Lemma contains_cr_overlaps_cr (c : circle) (r : rect) :
  0 <= Vec2.x (Rect.size r) -> 0 <= Vec2.y (Rect.size r) ->
  Geometry.contains_cr c r = true -> Geometry.overlaps_cr c r = true.
Proof.
  intros Hw Hh H. unfold Geometry.contains_cr in H.
  rewrite !andb_true_iff in H. destruct H as [[[H00 _] _] _].
  apply contains_cv_in_disc in H00.
  apply (overlaps_cr_of_common_point c r (Rect.pos r)); [| exact H00].
  unfold in_rect. repeat split; lra.
Qed.

(** X17.  On proper shapes (segments of nonzero length, rects of positive
    size, circles of nonnegative radius) [contains(A, B)] implies
    [overlaps(A, B)] for every pair of argument types other than
    (rect, line). *)
Theorem contains_implies_overlaps (narrow : Q -> Q) (a b : shape) :
  proper a -> proper b ->
  (forall r l, a = SRect r -> b = SLine l -> False) ->
  contains a b = Ok true -> overlaps narrow a b = Ok true.
Proof.
  intros Ha Hb Hrl.
  destruct a as [p1 | l1 | r1 | c1], b as [p2 | l2 | r2 | c2];
    simpl in *; intros H; try exact H; try discriminate.
  - exfalso. exact (Hrl r1 l2 eq_refl eq_refl).
  - injection H as H. f_equal. destruct Hb. now apply contains_rr_overlaps_rr.
  - injection H as H. now apply contains_cl_overlaps_cl.
  - injection H as H. f_equal. destruct Hb.
    apply contains_cr_overlaps_cr; try assumption; lra.
  - injection H as H. f_equal. now apply contains_cc_overlaps_cc.
Qed.

Lemma contains_implies_overlaps_witness :
  overlaps same_type (SCircle (disc 0 0 3)) (SLine (seg (-1) 1 1 1)) = Ok true.
Proof.
  apply (contains_implies_overlaps same_type (SCircle (disc 0 0 3))
           (SLine (seg (-1) 1 1 1))).
  - discriminate.
  - discriminate.
  - discriminate.
  - reflexivity.
Defined.

(** X18.  A circle of radius zero has an empty open disc: it contains no
    point, no segment and no rect, and it overlaps no point, no rect and
    no segment; yet two such circles with one centre overlap each
    other, the circle test being inclusive. *)
Theorem zero_radius_circle (c : circle) :
  Circle.radius c == 0 ->
  (forall p : vec2, Geometry.contains_cv c p = false)
  /\ (forall l : line, Geometry.contains_cl c l = false)
  /\ (forall r : rect, Geometry.contains_cr c r = false)
  /\ (forall r : rect, Geometry.overlaps_cr c r = false)
  /\ (forall l : line, Geometry.overlaps_cl c l <> Ok true)
  /\ Geometry.overlaps_cc c c = true.
Proof.
  intros Hr.
  assert (Hcv : forall p : vec2, Geometry.contains_cv c p = false).
  { intros p. unfold Geometry.contains_cv. apply ltb_ge.
    rewrite Hr. pose proof (mag2_nonneg (Vec2.sub (Circle.pos c) p)). lra. }
  split; [exact Hcv |]. split; [| split; [| split; [| split]]].
  - intros l. unfold Geometry.contains_cl. now rewrite Hcv.
  - intros r. unfold Geometry.contains_cr. now rewrite Hcv.
  - intros r. apply not_true_is_false. rewrite overlaps_cr_lt. rewrite Hr.
    pose proof (mag2_nonneg
      (Vec2.sub (Geometry.closest_rv r (Circle.center c)) (Circle.center c))).
    lra.
  - intros l. unfold Geometry.overlaps_cl.
    destruct (Geometry.closest_lv l (Circle.pos c)) as [q |]; simpl;
      [| discriminate].
    intros E. injection E as E. apply ltb_lt in E. rewrite Hr in E.
    pose proof (mag2_nonneg (Vec2.sub (Circle.pos c) q)). lra.
  - unfold Geometry.overlaps_cc. apply leb_le.
    setoid_replace (Vec2.mag2 (Vec2.sub (Circle.pos c) (Circle.pos c))) with 0
      by (unfold Vec2.mag2, Vec2.sub; simpl; ring).
    apply sq_nonneg.
Qed.

Lemma zero_radius_circle_witness :
  Geometry.contains_cv (disc 1 1 0) (pt 1 1) = false.
Proof.
  apply (zero_radius_circle (disc 1 1 0)). reflexivity.
Defined.

(** ** What [intersects] returns *)

Lemma veq_trans (u v w : vec2) : u =v= v -> v =v= w -> u =v= w.
Proof. intros [H1 H2] [H3 H4]. split; lra. Qed.

(** The outcome of [intersects(line, line)], whatever the conversion to
    [float] is: no point, or the parametric point of the first segment
    at a parameter of [[0, 1]]. *)
Lemma intersects_ll_outcome (narrow : Q -> Q) (l1 l2 : line) :
  Geometry.intersects_ll narrow l1 l2 = Ok []
  \/ exists k : Q,
       0 <= k /\ k <= 1
       /\ Geometry.intersects_ll narrow l1 l2 = Ok [Line.point l1 k].
Proof.
  destruct (Qeq_dec (narrow (Vec2.cross (Line.vec l1) (Line.vec l2))) 0)
    as [Hz | Hnz].
  - left. unfold Geometry.intersects_ll.
    apply eqb_eq in Hz. now rewrite Hz.
  - destruct (intersects_ll_value narrow l1 l2 Hnz) as [Hin Hout].
    cbv zeta in Hin, Hout.
    match type of Hin with
    | 0 <= ?a /\ ?a <= 1 /\ 0 <= ?b /\ ?b <= 1 -> _ =>
        set (rn := a) in *; set (sn := b) in *
    end.
    destruct (Qlt_le_dec rn 0); [left; apply Hout; lra |].
    destruct (Qlt_le_dec 1 rn); [left; apply Hout; lra |].
    destruct (Qlt_le_dec sn 0); [left; apply Hout; lra |].
    destruct (Qlt_le_dec 1 sn); [left; apply Hout; lra |].
    right. exists rn. repeat split; try assumption. apply Hin. tauto.
Qed.

(** X19.  [intersects(line, line)] never divides by zero, whatever the
    two segments and whatever the conversion to [float]: the test
    [rd == 0] is on the converted value, the one the code divides by.
    It returns at most one point, and no point when the converted
    determinant is zero, which is the case when the directions are
    parallel, a zero-length segment included. *)
Theorem intersects_ll_guarded (narrow : Q -> Q) (l1 l2 : line) :
  exists pts : list vec2,
    Geometry.intersects_ll narrow l1 l2 = Ok pts
    /\ (length pts <= 1)%nat
    /\ (narrow (Vec2.cross (Line.vec l1) (Line.vec l2)) == 0 -> pts = [])
    /\ (float_conversion narrow ->
        Vec2.cross (Line.vec l1) (Line.vec l2) == 0 -> pts = []).
Proof.
  assert (Hzero : narrow (Vec2.cross (Line.vec l1) (Line.vec l2)) == 0 ->
                  Geometry.intersects_ll narrow l1 l2 = Ok []).
  { intros Hz. unfold Geometry.intersects_ll.
    apply eqb_eq in Hz. now rewrite Hz. }
  destruct (intersects_ll_outcome narrow l1 l2) as [E | (k & _ & _ & E)].
  - exists []. repeat split; [exact E | simpl; lia].
  - eexists. split; [exact E |]. split; [simpl; lia |]. split.
    + intros Hz. rewrite (Hzero Hz) in E. discriminate.
    + intros Hn Hz. rewrite (Hzero (narrow_zero narrow _ Hn Hz)) in E.
      discriminate.
Qed.








(** X22.  A point at distance exactly [radius] from the centre is
    returned by [intersects(circle, vec2)] and is not contained by
    [contains(circle, vec2)]: the two tests disagree on the
    circumference. *)
Theorem intersects_cv_circumference (c : circle) (p : vec2) :
  Vec2.mag2 (Vec2.sub p (Circle.center c))
  == Circle.radius c * Circle.radius c ->
  Geometry.intersects_cv c p = [p] /\ Geometry.contains_cv c p = false.
Proof.
  intros H. split.
  - unfold Geometry.intersects_cv, Circle.pos.
    assert (E : Vec2.mag2 (Vec2.sub p (Circle.center c))
                - Circle.radius c * Circle.radius c == 0) by lra.
    rewrite E. reflexivity.
  - unfold Geometry.contains_cv, Circle.pos. apply ltb_ge.
    rewrite mag2_sub_sym, H. apply Qle_refl.
Qed.

Lemma intersects_cv_circumference_witness :
  Geometry.intersects_cv (disc 0 0 5) (pt 3 4) = [pt 3 4]
  /\ Geometry.contains_cv (disc 0 0 5) (pt 3 4) = false.
Proof.
  apply (intersects_cv_circumference (disc 0 0 5) (pt 3 4)). reflexivity.
Defined.

(** X23.  [contains(vec2, vec2)] is a tolerance test: it holds of every
    point with itself and of points that [operator==] equates, and it is
    symmetric, but it is not transitive. *)
Theorem contains_vv_tolerance :
  (forall p : vec2, Geometry.contains_vv p p = true)
  /\ (forall p q : vec2, Vec2.eqb p q = true -> Geometry.contains_vv p q = true)
  /\ (forall p q : vec2, Geometry.contains_vv p q = Geometry.contains_vv q p)
  /\ ~ (forall p q s : vec2,
           Geometry.contains_vv p q = true ->
           Geometry.contains_vv q s = true ->
           Geometry.contains_vv p s = true).
Proof.
  assert (Heq : forall p q : vec2,
             Vec2.eqb p q = true -> Geometry.contains_vv p q = true).
  { intros p q H. unfold Vec2.eqb in H.
    apply andb_true_iff in H as [Hx Hy].
    apply eqb_eq in Hx. apply eqb_eq in Hy.
    unfold Geometry.contains_vv.
    assert (E : Vec2.mag2 (Vec2.sub p q) == 0)
      by (unfold Vec2.mag2, Vec2.sub; simpl; rewrite Hx, Hy; ring).
    rewrite E. reflexivity. }
  split; [| split; [exact Heq | split]].
  - intros p. apply Heq. unfold Vec2.eqb.
    apply andb_true_iff. split; apply eqb_eq; reflexivity.
  - intros p q. unfold Geometry.contains_vv. now rewrite mag2_sub_sym.
  - intros H.
    specialize (H (pt 0 0) (pt (3 # 100) 0) (pt (6 # 100) 0)
                  eq_refl eq_refl).
    discriminate.
Qed.

(** ** Symmetry of [overlaps], rects included *)

Lemma overlaps_rr_sym_apart (r1 r2 : rect) :
  ~ touching r1 r2 ->
  Geometry.overlaps_rr r1 r2 = Geometry.overlaps_rr r2 r1.
Proof.
  unfold touching. intros Ht.
  apply eq_true_iff_eq. rewrite !overlaps_rr_iff.
  split; intros (X1 & X2 & Y1 & Y2); repeat split;
    first [ apply Qlt_le_weak; assumption
          | apply Qnot_le_lt; intros Hc; apply Ht;
            first [ left; lra | right; left; lra
                  | right; right; left; lra | right; right; right; lra ] ].
Qed.

(** X24.  [overlaps(A, B)] and [overlaps(B, A)] give the same outcome, a
    division by zero included, for every pair of shapes, unless both are
    rects that touch.  For two segments the quotients of the two orders
    are equal, so their conversions to [float] are: all that is asked of
    the conversion is that equal values convert to equal values. *)
Theorem overlaps_sym_unless_touching (narrow : Q -> Q) (a b : shape) :
  Proper (Qeq ==> Qeq) narrow ->
  (forall r1 r2, a = SRect r1 -> b = SRect r2 -> ~ touching r1 r2) ->
  overlaps narrow a b = overlaps narrow b a.
Proof.
  intros Hn Hrr.
  destruct a as [p1 | l1 | r1 | c1], b as [p2 | l2 | r2 | c2]; simpl;
    try reflexivity.
  - now rewrite overlaps_vv_sym.
  - now apply overlaps_ll_sym.
  - f_equal. apply overlaps_rr_sym_apart. exact (Hrr r1 r2 eq_refl eq_refl).
  - now rewrite overlaps_cc_sym.
Qed.

Lemma overlaps_sym_unless_touching_witness :
  overlaps same_type (SRect (box 0 0 4 4)) (SRect (box 2 2 4 4))
  = overlaps same_type (SRect (box 2 2 4 4)) (SRect (box 0 0 4 4)).
Proof.
  apply (overlaps_sym_unless_touching same_type (SRect (box 0 0 4 4))
           (SRect (box 2 2 4 4))).
  - intros x y H. exact H.
  - intros r1 r2 E1 E2. injection E1 as <-. injection E2 as <-.
    unfold touching. simpl. intros [H | [H | [H | H]]]; discriminate.
Defined.

(** X25.  For segments that are not parallel [overlaps(line, line)] is
    defined.  Its denominator is [l2.vec x l1.vec], the opposite of the
    determinant of the crossing, so [u1] and [u2] are the conversions to
    [float] of the opposites of the parameters [k1], [k2] at which the
    lines through the two segments cross.  When both parameters are in
    [[-1, 0]] it returns true; when it returns true both are in
    [[-1, 0]] up to the granularity of binary32: above [-1 - 2 ^ -23]
    and below [2 ^ -149]. *)
Theorem overlaps_ll_reflected (narrow : Q -> Q) (l1 l2 : line) :
  float_conversion narrow ->
  let ax := Vec2.x (Line.start l1) in
  let ay := Vec2.y (Line.start l1) in
  let cx := Vec2.x (Line.start l2) in
  let cy := Vec2.y (Line.start l2) in
  let d1x := Vec2.x (Line.end_ l1) - ax in
  let d1y := Vec2.y (Line.end_ l1) - ay in
  let d2x := Vec2.x (Line.end_ l2) - cx in
  let d2y := Vec2.y (Line.end_ l2) - cy in
  ~ d1x * d2y - d1y * d2x == 0 ->
  exists (b : bool) (k1 k2 : Q),
    Geometry.overlaps_ll narrow l1 l2 = Ok b
    /\ ax + k1 * d1x == cx + k2 * d2x
    /\ ay + k1 * d1y == cy + k2 * d2y
    /\ ((- (1) <= k1 /\ k1 <= 0) /\ (- (1) <= k2 /\ k2 <= 0) -> b = true)
    /\ (b = true ->
        (- (1) - 2 ^ (-23) < k1 /\ k1 < 2 ^ (-149))
        /\ (- (1) - 2 ^ (-23) < k2 /\ k2 < 2 ^ (-149))).
Proof.
  intros Hn ax ay cx cy d1x d1y d2x d2y Hrd.
  pose proof (narrow_proper narrow Hn) as Hp.
  assert (Hrd' : ~ Vec2.cross (Line.vec l1) (Line.vec l2) == 0) by exact Hrd.
  pose proof (cross_antisym (Line.vec l2) (Line.vec l1)) as Hd.
  assert (Hd' : ~ Vec2.cross (Line.vec l2) (Line.vec l1) == 0)
    by (rewrite Hd; lra).
  destruct (crossing_parameters l1 l2 Hrd') as [[Hx Hy] _].
  cbv zeta in Hx, Hy.
  set (rd := Vec2.cross (Line.vec l1) (Line.vec l2)) in *.
  set (ac := Vec2.sub (Line.start l1) (Line.start l2)) in *.
  set (k1 := Vec2.cross (Line.vec l2) ac / rd) in *.
  set (k2 := Vec2.cross (Line.vec l1) ac / rd) in *.
  rewrite (overlaps_ll_value narrow l1 l2 Hd'). cbv zeta. fold ac.
  assert (E1 : narrow (Vec2.cross (Line.vec l2) ac
                       / Vec2.cross (Line.vec l2) (Line.vec l1))
               == narrow (- k1))
    by (apply Hp; unfold k1; rewrite Hd; field; exact Hrd').
  assert (E2 : narrow (Vec2.cross (Line.vec l1) ac
                       / Vec2.cross (Line.vec l2) (Line.vec l1))
               == narrow (- k2))
    by (apply Hp; unfold k2; rewrite Hd; field; exact Hrd').
  assert (N0 : narrow 0 == 0)
    by (apply (narrow_value narrow 0 0 0 Hn); [lia | lia | reflexivity]).
  assert (N1 : narrow 1 == 1)
    by (apply (narrow_value narrow 1 1 0 Hn); [lia | lia | reflexivity]).
  assert (Neps : narrow (- 2 ^ (-149)) == - 2 ^ (-149))
    by (apply (narrow_value narrow _ (-1) (-149) Hn);
        [lia | lia | reflexivity]).
  assert (Ndel : narrow (1 + 2 ^ (-23)) == 1 + 2 ^ (-23))
    by (apply (narrow_value narrow _ 8388609 (-23) Hn);
        [lia | lia | reflexivity]).
  assert (Heps : 0 < 2 ^ (-149)) by reflexivity.
  assert (Hdel : 0 < 2 ^ (-23)) by reflexivity.
  set (eps := 2 ^ (-149)) in *. set (del := 2 ^ (-23)) in *.
  pose proof (narrow_monotone narrow Hn) as Hmono.
  eexists _, k1, k2. split; [reflexivity |].
  split; [exact Hx | split; [exact Hy |]].
  rewrite !andb_true_iff, !geb_ge, !leb_le, E1, E2. split.
  - intros [[A1 A2] [B1 B2]].
    pose proof (Hmono 0 (- k1) ltac:(lra)). pose proof (Hmono (- k1) 1 ltac:(lra)).
    pose proof (Hmono 0 (- k2) ltac:(lra)). pose proof (Hmono (- k2) 1 ltac:(lra)).
    repeat split; lra.
  - intros [[[A1 A2] B1] B2]. repeat split.
    + destruct (Qlt_le_dec (- (1) - del) k1) as [H | H]; [exact H | exfalso].
      pose proof (Hmono (1 + del) (- k1) ltac:(lra)). lra.
    + destruct (Qlt_le_dec k1 eps) as [H | H]; [exact H | exfalso].
      pose proof (Hmono (- k1) (- eps) ltac:(lra)). lra.
    + destruct (Qlt_le_dec (- (1) - del) k2) as [H | H]; [exact H | exfalso].
      pose proof (Hmono (1 + del) (- k2) ltac:(lra)). lra.
    + destruct (Qlt_le_dec k2 eps) as [H | H]; [exact H | exfalso].
      pose proof (Hmono (- k2) (- eps) ltac:(lra)). lra.
Qed.

Lemma overlaps_ll_reflected_witness :
  exists (b : bool) (k1 k2 : Q),
    Geometry.overlaps_ll same_type (seg 1 1 3 3) (seg 1 3 3 1) = Ok b
    /\ 1 + k1 * (3 - 1) == 1 + k2 * (3 - 1)
    /\ 1 + k1 * (3 - 1) == 3 + k2 * (1 - 3)
    /\ ((- (1) <= k1 /\ k1 <= 0) /\ (- (1) <= k2 /\ k2 <= 0) -> b = true)
    /\ (b = true ->
        (- (1) - 2 ^ (-23) < k1 /\ k1 < 2 ^ (-149))
        /\ (- (1) - 2 ^ (-23) < k2 /\ k2 < 2 ^ (-149))).
Proof.
  apply (overlaps_ll_reflected same_type (seg 1 1 3 3) (seg 1 3 3 1)).
  - split; [intros a b H; exact H | intros q H; reflexivity].
  - discriminate.
Defined.

(** ** Bounding shapes *)

Lemma min_abs_bounds (a b : Q) :
  Num.min a b <= a /\ Num.min a b <= b
  /\ a <= Num.min a b + Qabs (a - b) /\ b <= Num.min a b + Qabs (a - b).
Proof.
  unfold Num.min. destruct (Num.ltb b a) eqn:E.
  - apply ltb_lt in E. rewrite (Qabs_pos (a - b)) by lra. repeat split; lra.
  - apply ltb_ge in E. rewrite (Qabs_neg (a - b)) by lra. repeat split; lra.
Qed.

Lemma sq_lt_bound (a b : Q) : 0 <= b -> a * a < b * b -> - b < a /\ a < b.
Proof.
  intros Hb H. split.
  - destruct (Qlt_le_dec (- b) a) as [Hlt | Hge]; [exact Hlt | exfalso].
    assert (0 <= (- a - b) * (- a + b)) by (apply Qmult_le_0_compat; lra).
    lra.
  - destruct (Qlt_le_dec a b) as [Hlt | Hge]; [exact Hlt | exfalso].
    assert (0 <= (a - b) * (a + b)) by (apply Qmult_le_0_compat; lra).
    lra.
Qed.

(** X26.  [envelope_r] encloses its argument: the rect of a point
    contains the point, the rect of a segment contains every point of
    the segment, and the rect of a circle of nonnegative radius contains
    every point that the circle contains. *)
Theorem envelope_r_encloses :
  (forall p : vec2,
      Geometry.contains_rv (Geometry.envelope_r_v p) p = true)
  /\ (forall (l : line) (p : vec2),
         on_segment l p ->
         Geometry.contains_rv (Geometry.envelope_r_l l) p = true)
  /\ (forall (c : circle) (p : vec2),
         0 <= Circle.radius c ->
         Geometry.contains_cv c p = true ->
         Geometry.contains_rv (Geometry.envelope_r_c c) p = true).
Proof.
  split; [| split].
  - intros p. apply contains_rv_in_rect. unfold in_rect. simpl.
    repeat split; lra.
  - intros l p Hon. apply contains_rv_in_rect.
    pose proof (min_abs_bounds (Vec2.x (Line.start l)) (Vec2.x (Line.end_ l)))
      as (X1 & X2 & X3 & X4).
    pose proof (min_abs_bounds (Vec2.y (Line.start l)) (Vec2.y (Line.end_ l)))
      as (Y1 & Y2 & Y3 & Y4).
    apply (segment_in_rect _ l p); [| | exact Hon];
      unfold in_rect, Geometry.envelope_r_l; simpl; tauto.
  - intros c p Hr Hc. apply contains_cv_in_disc in Hc.
    apply contains_rv_in_rect.
    unfold in_disc, Vec2.mag2, Vec2.sub in Hc. simpl in Hc.
    unfold in_rect, Geometry.envelope_r_c, Circle.pos, Vec2.sub. simpl.
    set (dx := Vec2.x (Circle.center c) - Vec2.x p) in *.
    set (dy := Vec2.y (Circle.center c) - Vec2.y p) in *.
    pose proof (sq_nonneg dx) as Hx0. pose proof (sq_nonneg dy) as Hy0.
    destruct (sq_lt_bound dx (Circle.radius c) Hr ltac:(lra)) as [X1 X2].
    destruct (sq_lt_bound dy (Circle.radius c) Hr ltac:(lra)) as [Y1 Y2].
    unfold dx, dy in *. repeat split; lra.
Qed.

Lemma envelope_r_encloses_witness :
  Geometry.contains_rv (Geometry.envelope_r_l (seg 3 0 1 4)) (pt 2 2) = true.
Proof.
  apply (proj1 (proj2 envelope_r_encloses) (seg 3 0 1 4) (pt 2 2)).
  exists (1 # 2). repeat split; discriminate || reflexivity.
Defined.

(** X27.  The bounding circle that [envelope_c] gives a point has radius
    zero: it contains no point, the point itself included, while the
    bounding rect that [envelope_r] gives the point does contain it;
    [intersects(circle, vec2)] still returns the point. *)
Theorem envelope_c_of_point_is_empty (p : vec2) :
  (forall q : vec2,
      Geometry.contains_cv (Geometry.envelope_c_v p) q = false)
  /\ Geometry.contains_rv (Geometry.envelope_r_v p) p = true
  /\ Geometry.intersects_cv (Geometry.envelope_c_v p) p = [p].
Proof.
  split; [| split].
  - intros q. unfold Geometry.contains_cv, Geometry.envelope_c_v. simpl.
    apply ltb_ge. pose proof (mag2_nonneg (Vec2.sub p q)). lra.
  - apply contains_rv_in_rect. unfold in_rect. simpl. repeat split; lra.
  - unfold Geometry.intersects_cv, Geometry.envelope_c_v, Circle.pos.
    cbn [Circle.center Circle.radius].
    assert (E : Vec2.mag2 (Vec2.sub p p) - 0 * 0 == 0)
      by (unfold Vec2.mag2, Vec2.sub; simpl; ring).
    rewrite E. reflexivity.
Qed.

(** ** [line::side] *)

Lemma sgn_cases (a : Q) :
  (a < 0 /\ Num.sgn a = (-1)%Z) \/ (a == 0 /\ Num.sgn a = 0%Z)
  \/ (0 < a /\ Num.sgn a = 1%Z).
Proof.
  unfold Num.sgn.
  destruct (Num.ltb 0 a) eqn:E1; destruct (Num.ltb a 0) eqn:E2;
    try apply ltb_lt in E1; try apply ltb_lt in E2;
    try apply ltb_ge in E1; try apply ltb_ge in E2; simpl.
  - lra.
  - right; right. tauto.
  - left. tauto.
  - right; left. split; [lra | reflexivity].
Qed.

Lemma sgn_opp (a b : Q) : b == - a -> Num.sgn b = (- Num.sgn a)%Z.
Proof.
  intros E.
  destruct (sgn_cases a) as [[Ha ->] | [[Ha ->] | [Ha ->]]];
  destruct (sgn_cases b) as [[Hb ->] | [[Hb ->] | [Hb ->]]];
    try reflexivity; lra.
Qed.

(** X28.  [line::side] is [-1], [0] or [1]; it is [0] exactly when the
    point is on the line through the segment, in particular for every
    point of the segment; and exchanging the two end points of the
    segment negates it. *)
Theorem line_side_sign (l : line) (p : vec2) :
  (Line.side l p = (-1)%Z \/ Line.side l p = 0%Z \/ Line.side l p = 1%Z)
  /\ (Line.side l p = 0%Z
      <-> Vec2.cross (Line.vec l) (Vec2.sub p (Line.start l)) == 0)
  /\ (on_segment l p -> Line.side l p = 0%Z)
  /\ Line.side (Line.mk (Line.end_ l) (Line.start l)) p
     = (- Line.side l p)%Z.
Proof.
  assert (Hzero : Line.side l p = 0%Z
                  <-> Vec2.cross (Line.vec l) (Vec2.sub p (Line.start l)) == 0).
  { unfold Line.side, Line.vec.
    destruct (sgn_cases (Vec2.cross (Vec2.sub (Line.end_ l) (Line.start l))
                                    (Vec2.sub p (Line.start l))))
      as [[H ->] | [[H ->] | [H ->]]]; split; intros; try lia; try lra. }
  split; [| split; [exact Hzero | split]].
  - unfold Line.side.
    destruct (sgn_cases (Vec2.cross (Vec2.sub (Line.end_ l) (Line.start l))
                                    (Vec2.sub p (Line.start l))))
      as [[_ ->] | [[_ ->] | [_ ->]]]; tauto.
  - intros (k & _ & _ & Hx & Hy). apply Hzero.
    unfold Line.point, Vec2.add, Vec2.scale, Vec2.sub in Hx, Hy.
    simpl in Hx, Hy.
    unfold Vec2.cross, Line.vec, Vec2.sub. simpl. rewrite Hx, Hy. ring.
  - unfold Line.side. apply sgn_opp.
    unfold Vec2.cross, Vec2.sub. simpl. ring.
Qed.

Lemma line_side_sign_witness :
  Line.side (seg 0 0 4 2) (pt 2 1) = 0%Z.
Proof.
  apply (proj1 (proj2 (proj2 (line_side_sign (seg 0 0 4 2) (pt 2 1))))).
  exists (1 # 2). repeat split; discriminate || reflexivity.
Defined.

(** ** [vec2::clamp] and [vec2::lerp] *)

Lemma min_max_is_clamp (v lo hi : Q) :
  lo <= hi -> Num.min (Num.max v lo) hi = Num.clamp v lo hi.
Proof.
  intros H. unfold Num.min, Num.max, Num.clamp.
  destruct (Num.ltb v lo) eqn:E1.
  - apply ltb_lt in E1.
    destruct (Num.ltb hi lo) eqn:E2; [apply ltb_lt in E2; lra | reflexivity].
  - reflexivity.
Qed.

(** X29.  For a rect of nonnegative size, [closest(rect, vec2)] is
    [vec2::clamp] of the point between the corners [pos] and
    [pos + size]: the component-wise [max] then [min] agrees with
    [std::clamp]. *)
Theorem closest_rv_is_vec2_clamp (r : rect) (p : vec2) :
  0 <= Vec2.x (Rect.size r) -> 0 <= Vec2.y (Rect.size r) ->
  Vec2.clamp p (Rect.pos r) (Vec2.add (Rect.pos r) (Rect.size r))
  = Geometry.closest_rv r p.
Proof.
  intros Hw Hh.
  unfold Vec2.clamp, Vec2.min, Vec2.max, Geometry.closest_rv, Vec2.add. simpl.
  rewrite !min_max_is_clamp by lra. reflexivity.
Qed.

Lemma closest_rv_is_vec2_clamp_witness :
  Vec2.clamp (pt 5 1) (Rect.pos (box 0 0 2 2))
             (Vec2.add (Rect.pos (box 0 0 2 2)) (Rect.size (box 0 0 2 2)))
  = Geometry.closest_rv (box 0 0 2 2) (pt 5 1).
Proof.
  apply (closest_rv_is_vec2_clamp (box 0 0 2 2) (pt 5 1)); discriminate.
Defined.

(** X30.  [vec2::lerp] returns its receiver at [t = 0] and its argument
    at [t = 1]; [line::point] is the [lerp] of the two end points, and
    the [center] of a rect is the [lerp] of its two corners at [1/2]. *)
Theorem lerp_point_center :
  (forall v w : vec2, Vec2.lerp v w 0 =v= v /\ Vec2.lerp v w 1 =v= w)
  /\ (forall (l : line) (k : Q),
         Line.point l k =v= Vec2.lerp (Line.start l) (Line.end_ l) k)
  /\ (forall r : rect,
         Rect.center r
         =v= Vec2.lerp (Rect.pos r) (Vec2.add (Rect.pos r) (Rect.size r))
                       (1 # 2)).
Proof.
  split; [| split].
  - intros v w. split; split; simpl; ring.
  - intros l k. split; simpl; ring.
  - intros r. split; simpl; ring.
Qed.
